(** * convert_to_structured_logger.py: the transformation engine, embedded

    A shallow embedding of [src/convert_to_structured_logger.py]: the
    noise patterns, [LogConverter] with its methods, and the per-file loop
    of [main].

    Modelling conventions.
    - Python [str] values are lists of characters ([text]); the embedding
      covers ASCII text, where [\s], [\w], [str.strip] and [re.IGNORECASE]
      have the classes written out below.
    - The regular expressions of the source are values of [re], run by a
      backtracking matcher with Python's priorities (leftmost start,
      alternatives left to right, greedy repetition that gives back one
      character at a time).  Every repetition in the source is over a
      single character class, so [Star] and [Plus] take a class.
    - Exceptions are values of [result]; file access and printing go
      through an explicit [world]. *)

From Stdlib Require Import List Ascii String Bool Arith Lia DecimalString.
Import ListNotations.

Set Implicit Arguments.

Local Open Scope list_scope.
Local Open Scope bool_scope.

Abbreviation length := List.length.

(* ================================================================= *)
(** ** Text *)

Definition text := list ascii.

Definition txt (s : string) : text := list_ascii_of_string s.
Arguments txt s%_string.

Definition dq : ascii := "034"%char.
Definition nl : ascii := "010"%char.

Definition ascii_eqb (a b : ascii) : bool := Ascii.eqb a b.

Fixpoint text_eqb (a b : text) : bool :=
  match a, b with
  | [], [] => true
  | x :: a', y :: b' => ascii_eqb x y && text_eqb a' b'
  | _, _ => false
  end.

(** [str.lower] on ASCII text. *)
Definition lower_char (c : ascii) : ascii :=
  let n := nat_of_ascii c in
  if (65 <=? n) && (n <=? 90) then ascii_of_nat (n + 32) else c.

Definition lower (s : text) : text := map lower_char s.

(** The characters [str.isspace] accepts, which are also the ones [\s]
    matches: tab, newline, vertical tab, form feed, carriage return, the
    four separators 0x1c-0x1f and the space. *)
Definition is_space (c : ascii) : bool :=
  let n := nat_of_ascii c in
  ((9 <=? n) && (n <=? 13)) || ((28 <=? n) && (n <=? 32)).

(** [\w]: letters, digits and the underscore. *)
Definition is_word (c : ascii) : bool :=
  let n := nat_of_ascii c in
  ((48 <=? n) && (n <=? 57)) || ((65 <=? n) && (n <=? 90))
  || ((97 <=? n) && (n <=? 122)) || (n =? 95).

(** [.] without DOTALL: anything but a newline. *)
Definition is_dot (c : ascii) : bool := negb (ascii_eqb c nl).

Definition is_not (d : ascii) (c : ascii) : bool := negb (ascii_eqb c d).

Definition one_of (l : text) (c : ascii) : bool := existsb (ascii_eqb c) l.

(** [needle in s] is tested position by position. *)
Fixpoint starts_with (p s : text) : bool :=
  match p, s with
  | [], _ => true
  | x :: p', c :: s' => ascii_eqb x c && starts_with p' s'
  | _ :: _, [] => false
  end.

Fixpoint contains (needle s : text) : bool :=
  starts_with needle s ||
  match s with
  | [] => false
  | _ :: s' => contains needle s'
  end.

(** Number of positions of [s] at which [needle] occurs. *)
Fixpoint count_sub (needle s : text) : nat :=
  (if starts_with needle s then 1 else 0) +
  match s with
  | [] => 0
  | _ :: s' => count_sub needle s'
  end.

(** [str.strip()]. *)
Fixpoint lstrip (s : text) : text :=
  match s with
  | c :: s' => if is_space c then lstrip s' else s
  | [] => []
  end.

Definition rstrip (s : text) : text := rev (lstrip (rev s)).

Definition strip (s : text) : text := rstrip (lstrip s).

(** [s.split(sep)] for a one-character separator: never empty. *)
Fixpoint split_on (sep : ascii) (s : text) : list text :=
  match s with
  | [] => [[]]
  | c :: s' =>
      if ascii_eqb c sep then [] :: split_on sep s'
      else match split_on sep s' with
           | l :: ls => (c :: l) :: ls
           | [] => [[c]]
           end
  end.

(** [sep.join(parts)]. *)
Fixpoint join (sep : text) (parts : list text) : text :=
  match parts with
  | [] => []
  | [l] => l
  | l :: ls => l ++ sep ++ join sep ls
  end.

(** [s.split(sep, 1)]: the text before the first separator and the text
    after it, or the whole text alone. *)
Fixpoint split1 (sep : ascii) (s : text) : text * option text :=
  match s with
  | [] => ([], None)
  | c :: s' =>
      if ascii_eqb c sep then ([], Some s')
      else let (l, r) := split1 sep s' in (c :: l, r)
  end.

(** [s.rsplit(sep, 1)]: the text before the last separator and the text
    after it; without a separator the whole text alone. *)
Definition rsplit1 (sep : ascii) (s : text) : text * option text :=
  match split1 sep (rev s) with
  | (r, Some l) => (rev l, Some (rev r))
  | (r, None) => (rev r, None)
  end.

(** [s.count(sep)] for one character. *)
Definition count_char (sep : ascii) (s : text) : nat :=
  length (filter (ascii_eqb sep) s).

(* ================================================================= *)
(** ** Regular expressions *)

Inductive re : Type :=
| Eps
| Cls (p : ascii -> bool)
| Lit (l : text)
| Seq (r1 r2 : re)
| Alt (r1 r2 : re)
| Star (p : ascii -> bool)
| Plus (p : ascii -> bool)
| Grp (n : nat) (r : re)
| Bol.

Definition caps := list (nat * text).

Fixpoint group (n : nat) (c : caps) : option text :=
  match c with
  | [] => None
  | (m, t) :: c' => if Nat.eqb m n then Some t else group n c'
  end.

(** Characters compare exactly, or up to ASCII case under IGNORECASE. *)
Definition chr_eq (ci : bool) (x c : ascii) : bool :=
  if ci then ascii_eqb (lower_char x) (lower_char c) else ascii_eqb x c.

Section Matcher.
Variable R : Type.

(** A continuation receives the characters consumed so far in reverse
    (for [^]), the remaining input and the groups closed so far. *)
Definition cont := text -> text -> caps -> option R.

Fixpoint star_cls (p : ascii -> bool) (b s : text) (c : caps) (k : cont)
  : option R :=
  match s with
  | x :: s' =>
      if p x then
        match star_cls p (x :: b) s' c k with
        | Some r => Some r
        | None => k b s c
        end
      else k b s c
  | [] => k b s c
  end.

Fixpoint lit (ci : bool) (l : text) (b s : text) (c : caps) (k : cont)
  : option R :=
  match l with
  | [] => k b s c
  | x :: l' =>
      match s with
      | y :: s' => if chr_eq ci x y then lit ci l' (y :: b) s' c k else None
      | [] => None
      end
  end.

Fixpoint rmatch (ci : bool) (r : re) (b s : text) (c : caps) (k : cont)
  : option R :=
  match r with
  | Eps => k b s c
  | Cls p =>
      match s with
      | x :: s' => if p x then k (x :: b) s' c else None
      | [] => None
      end
  | Lit l => lit ci l b s c k
  | Seq r1 r2 =>
      rmatch ci r1 b s c (fun b' s' c' => rmatch ci r2 b' s' c' k)
  | Alt r1 r2 =>
      match rmatch ci r1 b s c k with
      | Some x => Some x
      | None => rmatch ci r2 b s c k
      end
  | Star p => star_cls p b s c k
  | Plus p =>
      match s with
      | x :: s' => if p x then star_cls p (x :: b) s' c k else None
      | [] => None
      end
  | Grp n r1 =>
      rmatch ci r1 b s c
        (fun b' s' c' =>
           k b' s' ((n, firstn (length s - length s') s) :: c'))
  | Bol =>
      match b with
      | [] => k b s c
      | x :: _ => if ascii_eqb x nl then k b s c else None
      end
  end.
End Matcher.

(** A match object: where it starts, [group(0)] and the numbered groups. *)
Record rmatch_obj : Type := MatchObj {
  m_start : nat;
  m_text : text;
  m_groups : caps
}.

Definition m_end (m : rmatch_obj) : nat := m_start m + length (m_text m).

(** The pattern tried at one position: the match and what follows it. *)
Definition match_at (ci : bool) (r : re) (b s : text)
  : option (rmatch_obj * text) :=
  rmatch ci r b s []
    (fun _ s' c' =>
       Some (MatchObj (length b) (firstn (length s - length s') s) c', s')).

(** [re.search]: the first position, left to right, where the pattern
    matches; the end of the text is a position too. *)
Fixpoint search_from (ci : bool) (r : re) (b s : text)
  : option (rmatch_obj * text) :=
  match match_at ci r b s with
  | Some m => Some m
  | None =>
      match s with
      | x :: s' => search_from ci r (x :: b) s'
      | [] => None
      end
  end.

Definition re_search (ci : bool) (r : re) (s : text) : option rmatch_obj :=
  option_map fst (search_from ci r [] s).

Definition re_matches (ci : bool) (r : re) (s : text) : bool :=
  match re_search ci r s with Some _ => true | None => false end.

(* ================================================================= *)
(** ** Exceptions *)

Inductive exn : Type :=
| IndexError
| OSError (path : text).

Inductive result (A : Type) : Type :=
| Ok (a : A)
| Raise (e : exn).

Arguments Ok {A} a.
Arguments Raise {A} e.

Definition rbind {A B : Type} (m : result A) (k : A -> result B) : result B :=
  match m with
  | Ok a => k a
  | Raise e => Raise e
  end.

Declare Scope result_scope.
Delimit Scope result_scope with res.
Notation "'let?' x ':=' m 'in' k" := (rbind m (fun x => k))
  (at level 10, x pattern, m at level 100, k at level 200) : result_scope.

(** [re.sub(pattern, repl, s)] with a function for [repl]: matches are
    taken left to right and do not overlap; [skip] counts the characters
    of the current match still to pass over.  The function may raise and
    logs changes; an empty match (none of the source's substitution
    patterns has one) is passed over like a failed one. *)
Fixpoint sub_from (W : Type) (ci : bool) (r : re)
  (f : text -> result (text * list W)) (skip : nat) (b s : text)
  : result (text * list W) :=
  match skip with
  | S k =>
      match s with
      | x :: s' => sub_from ci r f k (x :: b) s'
      | [] => Ok ([], [])
      end
  | 0 =>
      match match_at ci r b s with
      | Some (MatchObj _ ((_ :: mt) as full) _, _) =>
          (let? (rep, ch) := f full in
           let? (out, ch') :=
             match s with
             | x :: s' => sub_from ci r f (length mt) (x :: b) s'
             | [] => Ok ([], [])
             end in
           Ok (rep ++ out, ch ++ ch'))%res
      | _ =>
          match s with
          | x :: s' =>
              (let? (out, ch) := sub_from ci r f 0 (x :: b) s' in
               Ok (x :: out, ch))%res
          | [] => Ok ([], [])
          end
      end
  end.

Definition re_sub (W : Type) (ci : bool) (r : re)
  (f : text -> result (text * list W)) (s : text) : result (text * list W) :=
  sub_from ci r f 0 [] s.

(** [re.sub(pattern, '', s)]. *)
Definition re_delete (r : re) (s : text) : result text :=
  (let? (out, _) := re_sub false r (fun _ => Ok ([], @nil unit)) s in
   Ok out)%res.

(* ================================================================= *)
(** ** The patterns of the source *)

Infix ">>" := Seq (at level 61, right associativity).

Definition L (s : string) : re := Lit (txt s).
Arguments L s%_string.

Definition rparen : ascii := "041"%char.
Definition lbrace : ascii := "123"%char.
Definition comma : ascii := "044"%char.

Definition level_letter : ascii -> bool := one_of (txt "deiwv").

(** Patterns to identify unnecessary logs. *)
Definition UNNECESSARY_PATTERNS : list re :=
  [ L "============" >> Star is_dot >> L "============";
    L "[DEBUG]";
    L "println";
    L "Log.v(";
    Alt (L "TODO") (L "FIXME");
    Alt (L "Testing") (L "Debugging");
    L "All keys in";
    L "Inclusion states JSON" ].

(** [class\s+(\w+)] *)
Definition class_re : re := L "class" >> Plus is_space >> Grp 1 (Plus is_word).

(** [fun\s+(\w+)\s*\(] *)
Definition fun_re : re :=
  L "fun" >> Plus is_space >> Grp 1 (Plus is_word) >> Star is_space >> L "(".

(** [Timber\.tag\([^)]+\)\.([deiwv])\((.{0,})\)], writing [.{0,}] for the
    source's dot-star. *)
Definition timber_re : re :=
  L "Timber.tag(" >> Plus (is_not rparen) >> L ")." >> Grp 1 (Cls level_letter)
  >> L "(" >> Grp 2 (Star is_dot) >> L ")".

(** [Log\.([deiwv])\(Q([^Q]+)Q,\s*(.{0,})\)], writing [Q] for the double
    quote. *)
Definition log_re : re :=
  L "Log." >> Grp 1 (Cls level_letter) >> L "(" >> Lit [dq]
  >> Grp 2 (Plus (is_not dq)) >> Lit [dq] >> L "," >> Star is_space
  >> Grp 3 (Star is_dot) >> L ")".

(** [Log\.[deiwv]\(] *)
Definition log_marker_re : re := L "Log." >> Cls level_letter >> L "(".

(** [(Timber\.tag\([^)]+\)\.[deiwv]\([^)]*\)|Log\.[deiwv]\([^)]*\))] *)
Definition call_re : re :=
  Grp 1
    (Alt
       (L "Timber.tag(" >> Plus (is_not rparen) >> L ")." >> Cls level_letter
        >> L "(" >> Star (is_not rparen) >> L ")")
       (L "Log." >> Cls level_letter >> L "(" >> Star (is_not rparen) >> L ")")).

(** [import timber\.log\.Timber\n] and [import android\.util\.Log\n] *)
Definition timber_import_re : re := L "import timber.log.Timber" >> Lit [nl].
Definition android_import_re : re := L "import android.util.Log" >> Lit [nl].

(** [^import ] under MULTILINE *)
Definition import_re : re := Bol >> L "import ".

(** [class\s+\w+[^{]*\{] *)
Definition class_body_re : re :=
  L "class" >> Plus is_space >> Plus is_word >> Star (is_not lbrace) >> L "{".

Definition group_text (n : nat) (m : rmatch_obj) : text :=
  match group n (m_groups m) with
  | Some t => t
  | None => []
  end.

(** The fixed literal strings of the tool. *)
Definition LOGGER_DECL : text := txt "private val logger = StructuredLogger".
Definition LOGGER_DECL_TYPED : text := txt "private val logger:".
Definition LOGGER_IMPORT : text :=
  txt "import com.expensemanager.app.utils.logging.StructuredLogger".

(* ================================================================= *)
(** ** LogConverter *)

(** The feature tags of [extract_class_info]; the source keeps the text
    [LogConfig.FeatureTags.<NAME>] in [self.feature_tag]. *)
Inductive FeatureTag : Type :=
| DASHBOARD | SMS | TRANSACTION | CATEGORIES | MERCHANT | INSIGHTS
| DATABASE | NETWORK | MIGRATION | APP.

Definition feature_tag_text (t : FeatureTag) : text :=
  txt "LogConfig.FeatureTags." ++
  match t with
  | DASHBOARD => txt "DASHBOARD"
  | SMS => txt "SMS"
  | TRANSACTION => txt "TRANSACTION"
  | CATEGORIES => txt "CATEGORIES"
  | MERCHANT => txt "MERCHANT"
  | INSIGHTS => txt "INSIGHTS"
  | DATABASE => txt "DATABASE"
  | NETWORK => txt "NETWORK"
  | MIGRATION => txt "MIGRATION"
  | APP => txt "APP"
  end.

Record LogConverter : Type := mkConverter {
  file_path : text;
  content : text;
  class_name : text;
  feature_tag : text;
  changes_made : list text
}.

(** [LogConverter(file_path)] *)
Definition new_converter (p : text) : LogConverter :=
  mkConverter p [] [] [] [].

Definition set_content (o : LogConverter) (c : text) : LogConverter :=
  mkConverter (file_path o) c (class_name o) (feature_tag o) (changes_made o).

Definition add_changes (o : LogConverter) (ch : list text) : LogConverter :=
  mkConverter (file_path o) (content o) (class_name o) (feature_tag o)
    (changes_made o ++ ch).

(** [Path(p).stem] for the path of a file: the last component, without
    its last suffix when the dot is neither first nor last in it. *)
Definition path_name (p : text) : text :=
  rev (fst (split1 "/"%char (rev p))).

Definition path_stem (p : text) : text :=
  let name := path_name p in
  match rsplit1 "."%char name with
  | ((_ :: _) as l, Some (_ :: _)) => l
  | _ => name
  end.

(** The tag chosen from the path, first match first. *)
Definition classify (p : text) : FeatureTag :=
  let path := lower p in
  if contains (txt "dashboard") path then DASHBOARD
  else if contains (txt "message") path || contains (txt "sms") path then SMS
  else if contains (txt "transaction") path then TRANSACTION
  else if contains (txt "categor") path then CATEGORIES
  else if contains (txt "merchant") path then MERCHANT
  else if contains (txt "insight") path then INSIGHTS
  else if contains (txt "database") path || contains (txt "dao") path
          || contains (txt "repository") path then DATABASE
  else if contains (txt "network") path || contains (txt "api") path
  then NETWORK
  else if contains (txt "migration") path then MIGRATION
  else APP.

Definition extract_class_info (o : LogConverter) : LogConverter :=
  let cls :=
    match re_search false class_re (content o) with
    | Some m => group_text 1 m
    | None => path_stem (file_path o)
    end in
  mkConverter (file_path o) (content o) cls
    (feature_tag_text (classify (file_path o))) (changes_made o).

Definition should_remove_log (log_line : text) : bool :=
  existsb (fun pattern => re_matches true pattern log_line)
    UNNECESSARY_PATTERNS.

(** [range(start, stop, -1)] for [stop <= start]: [start] down to
    [stop + 1]. *)
Definition range_down (start stop : nat) : list nat :=
  rev (seq (S stop) (start - stop)).

(** The loop of [extract_method_name] over the indices of the range;
    [lines[i]] raises outside the list. *)
Fixpoint scan_lines (lines : list text) (idx : list nat) : result text :=
  match idx with
  | [] => Ok (txt "unknown")
  | i :: rest =>
      match nth_error lines i with
      | None => Raise IndexError
      | Some line =>
          match re_search false fun_re line with
          | Some m => Ok (group_text 1 m)
          | None => scan_lines lines rest
          end
      end
  end.

(** For [line_num = 0] Python's range starts at -1 and is empty, as is
    the range below. *)
Definition extract_method_name (c : text) (line_num : nat) : result text :=
  let lines := split_on nl c in
  scan_lines lines (range_down (line_num - 1) (Nat.max 0 (line_num - 50))).

Definition level_map (level : text) : text :=
  if text_eqb level (txt "d") then txt "debug"
  else if text_eqb level (txt "e") then txt "error"
  else if text_eqb level (txt "i") then txt "info"
  else if text_eqb level (txt "w") then txt "warn"
  else if text_eqb level (txt "v") then txt "debug"
  else txt "debug".

Definition nat_text (n : nat) : text :=
  txt (NilEmpty.string_of_uint (Nat.to_uint n)).

(** [logger.<method>(Q<method_name>Q, <args>)], [Q] the double quote. *)
Definition logger_call (method method_name args : text) : text :=
  txt "logger." ++ method ++ txt "(" ++ [dq] ++ method_name ++ [dq]
  ++ txt ", " ++ args ++ txt ")".

Definition change_line (line_num : nat) (what : text) : text :=
  txt "Line " ++ nat_text line_num ++ txt ": " ++ what.

(** [convert_log_call]; [c] is [self.content], [full_match] is
    [match_obj.group(0)].  The result is the replacement text with the
    entries appended to [self.changes_made]. *)
Definition convert_log_call (c : text) (full_match : text) (line_num : nat)
  : result (text * list text) :=
  if should_remove_log full_match then
    Ok ([], [change_line line_num (txt "REMOVED unnecessary log")])
  else
    match re_search false timber_re full_match with
    | Some timber_match =>
        let level := group_text 1 timber_match in
        let message := group_text 2 timber_match in
        (let? method_name := extract_method_name c line_num in
         let method := level_map level in
         let converted :=
           if text_eqb method (txt "error") && contains [comma] message then
             let parts := split1 comma message in
             let exception := strip (fst parts) in
             let msg :=
               match snd parts with
               | Some p1 => strip p1
               | None => [dq; dq]
               end in
             logger_call method method_name (msg ++ txt ", " ++ exception)
           else logger_call method method_name message in
         Ok (converted,
             [change_line line_num
                (txt "Converted Timber." ++ level ++ txt "() to logger."
                 ++ method ++ txt "()")]))%res
    | None =>
        match re_search false log_re full_match with
        | Some log_match =>
            let level := group_text 1 log_match in
            let message := group_text 3 log_match in
            (let? method_name := extract_method_name c line_num in
             let method := level_map level in
             let? converted :=
               if text_eqb method (txt "error")
                  && (1 <=? count_char comma message) then
                 match rsplit1 comma message with
                 | (p0, Some p1) =>
                     Ok (logger_call method method_name
                           (strip p0 ++ txt ", " ++ strip p1))
                 | (_, None) => Raise IndexError
                 end
               else Ok (logger_call method method_name message) in
             Ok (converted,
                 [change_line line_num
                    (txt "Converted Log." ++ level ++ txt "() to logger."
                     ++ method ++ txt "()")]))%res
        | None => Ok (full_match, [])
        end
    end.

(** The test that sends a line of [process_content] to [re.sub]. *)
Definition is_candidate (line : text) : bool :=
  contains (txt "Timber.tag") line || re_matches false log_marker_re line.

Definition is_blank (s : text) : bool :=
  match strip s with [] => true | _ :: _ => false end.

(** One turn of the loop of [process_content]: the line to append, if
    any, and the changes logged. *)
Definition process_line (c : text) (line_num : nat) (line : text)
  : result (option text * list text) :=
  if is_candidate line then
    (let? (new_line, ch) :=
       re_sub false call_re (fun m => convert_log_call c m line_num) line in
     Ok (if is_blank new_line then None else Some new_line, ch))%res
  else Ok (Some line, []).

Fixpoint process_lines (c : text) (line_num : nat) (lines : list text)
  : result (list text * list text) :=
  match lines with
  | [] => Ok ([], [])
  | line :: rest =>
      (let? (out, ch) := process_line c line_num line in
       let? (new_lines, ch') := process_lines c (S line_num) rest in
       Ok (match out with
           | Some l => l :: new_lines
           | None => new_lines
           end, ch ++ ch'))%res
  end.

(** When a call raises, the entries logged before it are dropped with
    the rest of the attempt: [convert] then returns [False] and [main]
    never prints the log of such a file. *)
Definition process_content (o : LogConverter) : result LogConverter :=
  (let? (new_lines, ch) :=
     process_lines (content o) 1 (split_on nl (content o)) in
   Ok (add_changes (set_content o (join [nl] new_lines)) ch))%res.

Definition update_imports (o : LogConverter) : result LogConverter :=
  (let? c1 := re_delete timber_import_re (content o) in
   let? c2 := re_delete android_import_re c1 in
   if negb (contains LOGGER_IMPORT c2) then
     match re_search false import_re c2 with
     | Some import_match =>
         let pos := m_start import_match in
         Ok (set_content o
               (firstn pos c2 ++ LOGGER_IMPORT ++ [nl] ++ skipn pos c2))
     | None => Ok (set_content o c2)
     end
   else Ok (set_content o c2))%res.

Definition logger_code (o : LogConverter) : text :=
  [nl] ++ txt "    private val logger = StructuredLogger(" ++ feature_tag o
  ++ txt ", " ++ [dq] ++ class_name o ++ [dq] ++ txt ")" ++ [nl].

Definition add_logger_instance (o : LogConverter) : LogConverter :=
  if contains LOGGER_DECL (content o) || contains LOGGER_DECL_TYPED (content o)
  then o
  else
    match re_search false class_body_re (content o) with
    | None => o
    | Some class_match =>
        let insert_pos := m_end class_match in
        add_changes
          (set_content o
             (firstn insert_pos (content o) ++ logger_code o
              ++ skipn insert_pos (content o)))
          [txt "Added logger instance to " ++ class_name o]
    end.

(* ================================================================= *)
(** ** Files, output and [convert] *)

(** A file of the tree: what reading it gives ([None] when [open] or the
    decoding raises) and whether it can be opened for writing. *)
Record file : Type := mkFile {
  file_data : option text;
  file_writable : bool
}.

Inductive event : Type :=
| EvRead (path : text)
| EvWrite (path : text) (data : text)
| EvPrintError (path : text) (e : exn)
| EvPrintConverted (path : text) (changes : list text).

Record world : Type := mkWorld {
  w_fs : text -> file;
  w_trace : list event
}.

Definition log_event (w : world) (e : event) : world :=
  mkWorld (w_fs w) (w_trace w ++ [e]).

Definition fs_write (fs : text -> file) (p : text) (c : text) : text -> file :=
  fun p' => if text_eqb p' p then mkFile (Some c) true else fs p'.

(** Methods run on the object and the world; a raised exception leaves
    both as they were when it was raised. *)
Definition M (A : Type) : Type :=
  LogConverter -> world -> result A * LogConverter * world.

Definition ret {A : Type} (a : A) : M A := fun o w => (Ok a, o, w).

Definition bind {A B : Type} (m : M A) (k : A -> M B) : M B :=
  fun o w =>
    match m o w with
    | (Ok a, o', w') => k a o' w'
    | (Raise e, o', w') => (Raise e, o', w')
    end.

(** A method that works on the object alone. *)
Definition lift (f : LogConverter -> result LogConverter) : M unit :=
  fun o w =>
    match f o with
    | Ok o' => (Ok tt, o', w)
    | Raise e => (Raise e, o, w)
    end.

(** [try: body except Exception as e: handler(e)] *)
Definition try_except {A : Type} (body : M A) (handler : exn -> M A) : M A :=
  fun o w =>
    match body o w with
    | (Ok a, o', w') => (Ok a, o', w')
    | (Raise e, o', w') => handler e o' w'
    end.

Declare Scope monad_scope.
Delimit Scope monad_scope with M.
Notation "x <- m ;; k" := (bind m (fun x => k))
  (at level 61, m at next level, right associativity) : monad_scope.
Notation "m ;;; k" := (bind m (fun _ => k))
  (at level 61, right associativity) : monad_scope.

Definition read_file : M unit :=
  fun o w =>
    match file_data (w_fs w (file_path o)) with
    | Some c => (Ok tt, set_content o c, log_event w (EvRead (file_path o)))
    | None => (Raise (OSError (file_path o)), o, w)
    end.

Definition write_file : M unit :=
  fun o w =>
    if file_writable (w_fs w (file_path o)) then
      (Ok tt, o,
       log_event (mkWorld (fs_write (w_fs w) (file_path o) (content o))
                    (w_trace w))
         (EvWrite (file_path o) (content o)))
    else (Raise (OSError (file_path o)), o, w).

Definition print_error (e : exn) : M unit :=
  fun o w => (Ok tt, o, log_event w (EvPrintError (file_path o) e)).

(** The test of [convert] for a file without logging in it. *)
Definition no_legacy_marker (c : text) : bool :=
  negb (contains (txt "Timber") c) && negb (contains (txt "Log.d") c)
  && negb (contains (txt "Log.e") c).

Definition get_content : M text := fun o w => (Ok (content o), o, w).

(** The body of the [try] of [convert]. *)
Definition convert_body : M bool :=
  (read_file ;;;
   c <- get_content ;;
   if contains LOGGER_DECL c then ret false
   else if no_legacy_marker c then ret false
   else
     lift (fun o => Ok (extract_class_info o)) ;;;
     lift process_content ;;;
     lift update_imports ;;;
     lift (fun o => Ok (add_logger_instance o)) ;;;
     write_file ;;;
     ret true)%M.

Definition convert : M bool :=
  try_except convert_body (fun e => (print_error e ;;; ret false)%M).

(** The loop of [main] over the files found, with its two counters.  An
    exception leaving [convert] would end the loop. *)
Fixpoint main_loop (files : list text) (converted_count skipped_count : nat)
  (w : world) : result (nat * nat) * world :=
  match files with
  | [] => (Ok (converted_count, skipped_count), w)
  | p :: rest =>
      match convert (new_converter p) w with
      | (Ok true, o, w') =>
          main_loop rest (converted_count + 1) skipped_count
            (log_event w' (EvPrintConverted p (changes_made o)))
      | (Ok false, _, w') =>
          main_loop rest converted_count (skipped_count + 1) w'
      | (Raise e, _, w') => (Raise e, w')
      end
  end.

(** The text of the file at [p], when it can be read. *)
Definition file_text (w : world) (p : text) : option text :=
  file_data (w_fs w p).

(** A tree with a single readable and writable file. *)
Definition single_file (p c : text) : world :=
  mkWorld
    (fun p' => if text_eqb p' p then mkFile (Some c) true
               else mkFile None false)
    [].

(* ================================================================= *)
(** ** The source tree and [main] *)

(** A directory as [os.walk] yields it: the names of its files and its
    sub-directories, each with its own content, in listing order. *)
Inductive tree : Type :=
| Dir (files : list text) (dirs : list (text * tree)).

(** [s.endswith(suffix)] *)
Definition ends_with (suffix s : text) : bool :=
  starts_with (rev suffix) (rev s).

(** [os.path.join(a, b)] on POSIX paths. *)
Definition path_join (a b : text) : text :=
  if starts_with (txt "/") b then b
  else
    match a with
    | [] => b
    | _ :: _ => if ends_with (txt "/") a then a ++ b else a ++ txt "/" ++ b
    end.

(** [find_kotlin_files]: the walk is top-down, a directory's own files
    before those of its sub-directories. *)
Fixpoint find_kotlin_files (root_dir : text) (t : tree) : list text :=
  match t with
  | Dir files dirs =>
      map (path_join root_dir) (filter (ends_with (txt ".kt")) files)
      ++ (fix walk (ds : list (text * tree)) : list text :=
            match ds with
            | [] => []
            | (d, sub) :: ds' =>
                find_kotlin_files (path_join root_dir d) sub ++ walk ds'
            end) dirs
  end.

(** What [main] prints outside the loop. *)
Inductive main_line : Type :=
| PrintUsage
| PrintNotFound (dir : text)
| PrintConverting (dir : text)
| PrintFound (n : nat)
| PrintSummary (converted skipped : nat).

(** [main] on the arguments [argv]; [disk] gives the tree under a path
    that is a directory and nothing for any other path.  The result is
    the exit status (1 for [sys.exit(1)] and for an exception that leaves
    the loop), the lines printed outside the loop and the world. *)
Definition main (argv : list text) (disk : text -> option tree) (w : world)
  : nat * list main_line * world :=
  match argv with
  | _ :: project_dir :: _ =>
      match disk project_dir with
      | None => (1, [PrintNotFound project_dir], w)
      | Some t =>
          let kotlin_files := find_kotlin_files project_dir t in
          match main_loop kotlin_files 0 0 w with
          | (Ok (converted_count, skipped_count), w') =>
              (0, [PrintConverting project_dir;
                   PrintFound (length kotlin_files);
                   PrintSummary converted_count skipped_count], w')
          | (Raise _, w') =>
              (1, [PrintConverting project_dir;
                   PrintFound (length kotlin_files)], w')
          end
      end
  | _ => (1, [PrintUsage], w)
  end.

(* ================================================================= *)
(** * Properties *)

(** ** Characters and text *)

Lemma ascii_eqb_refl (a : ascii) : ascii_eqb a a = true.
Proof. apply Ascii.eqb_refl. Qed.

Lemma ascii_eqb_true (a b : ascii) : ascii_eqb a b = true -> a = b.
Proof. apply Ascii.eqb_eq. Qed.

Lemma text_eqb_refl (a : text) : text_eqb a a = true.
Proof.
  induction a as [|x a IH]; simpl; [reflexivity|].
  now rewrite ascii_eqb_refl, IH.
Qed.

Lemma text_eqb_true (a b : text) : text_eqb a b = true -> a = b.
Proof.
  revert b; induction a as [|x a IH]; intros [|y b] H; simpl in H;
    try discriminate; [reflexivity|].
  apply andb_true_iff in H as [H1 H2].
  apply ascii_eqb_true in H1. apply IH in H2. now subst.
Qed.

Lemma starts_with_app (p s : text) : starts_with p (p ++ s) = true.
Proof.
  induction p as [|x p IH]; simpl; [reflexivity|].
  now rewrite ascii_eqb_refl, IH.
Qed.

Lemma starts_with_extend (p a b : text) :
  starts_with p a = true -> starts_with p (a ++ b) = true.
Proof.
  revert a; induction p as [|x p IH]; intros [|y a] H; simpl in *;
    try discriminate; try reflexivity.
  apply andb_true_iff in H as [H1 H2].
  now rewrite H1, (IH _ H2).
Qed.

Lemma contains_app_r (n a b : text) :
  contains n b = true -> contains n (a ++ b) = true.
Proof.
  intro H. induction a as [|x a IH]; simpl; [exact H|].
  rewrite IH. apply orb_true_r.
Qed.

Lemma contains_app_l (n a b : text) :
  contains n a = true -> contains n (a ++ b) = true.
Proof.
  induction a as [|x a IH]; intro H.
  - simpl in H. rewrite orb_false_r in H.
    destruct n; [|discriminate]. now destruct b.
  - cbn [contains] in H. apply orb_true_iff in H as [H|H].
    + change ((x :: a) ++ b) with (x :: a ++ b). cbn [contains].
      change (x :: a ++ b) with ((x :: a) ++ b).
      now rewrite (starts_with_extend _ _ _ H).
    + change ((x :: a) ++ b) with (x :: a ++ b). cbn [contains].
      rewrite (IH H). apply orb_true_r.
Qed.

Lemma contains_middle (n a b : text) : contains n (a ++ n ++ b) = true.
Proof.
  apply contains_app_r.
  destruct (n ++ b) eqn:E; simpl.
  - destruct n; [reflexivity|discriminate].
  - rewrite <- E, starts_with_app. reflexivity.
Qed.

Lemma contains_count (n s : text) :
  contains n s = false <-> count_sub n s = 0.
Proof.
  induction s as [|x s IH]; simpl.
  - destruct (starts_with n []); simpl; split; intro; congruence || lia.
  - destruct (starts_with n (x :: s)); simpl.
    + split; intro; congruence || lia.
    + exact IH.
Qed.

(* ================================================================= *)
(** ** Classification of the path *)

(** The priority order as a table: the substrings of an entry, and the
    tag they give. *)
Definition priority_table : list (list text * FeatureTag) :=
  [ ([txt "dashboard"], DASHBOARD);
    ([txt "message"; txt "sms"], SMS);
    ([txt "transaction"], TRANSACTION);
    ([txt "categor"], CATEGORIES);
    ([txt "merchant"], MERCHANT);
    ([txt "insight"], INSIGHTS);
    ([txt "database"; txt "dao"; txt "repository"], DATABASE);
    ([txt "network"; txt "api"], NETWORK);
    ([txt "migration"], MIGRATION) ].

Fixpoint first_match (table : list (list text * FeatureTag)) (path : text)
  : FeatureTag :=
  match table with
  | [] => APP
  | (keys, tag) :: rest =>
      if existsb (fun k => contains k path) keys then tag
      else first_match rest path
  end.

(** The entries placed before DATABASE in the order. *)
Definition before_database : list text :=
  [txt "dashboard"; txt "message"; txt "sms"; txt "transaction";
   txt "categor"; txt "merchant"; txt "insight"].

Lemma classify_first_match (p : text) :
  classify p = first_match priority_table (lower p).
Proof.
  unfold classify, priority_table; cbn [first_match existsb].
  repeat match goal with
         | |- context [contains ?k ?s] =>
             destruct (contains k s); cbn [orb]; try reflexivity
         end.
Qed.

Lemma feature_tag_text_inj (t u : FeatureTag) :
  feature_tag_text t = feature_tag_text u -> t = u.
Proof. destruct t, u; intro H; try reflexivity; discriminate H. Qed.

(** C8, as stated, fails: a path with both [database] and [network] in
    it and [sms] as well is tagged SMS. *)
Lemma C8_counterexample :
  contains (txt "database") (lower (txt "/app/sms/database/NetworkSync.kt"))
    = true /\
  contains (txt "network") (lower (txt "/app/sms/database/NetworkSync.kt"))
    = true /\
  classify (txt "/app/sms/database/NetworkSync.kt") = SMS /\
  classify (txt "/app/sms/database/NetworkSync.kt") <> DATABASE.
Proof. repeat split; try (vm_compute; reflexivity). vm_compute. discriminate. Qed.

(** C8 (amended).  Every path gets exactly one tag, the one of the first
    entry of the fixed priority order with a substring in the lower-cased
    path, APP when there is none; a path with [database] in it is never
    tagged NETWORK, and it is tagged DATABASE when none of the substrings
    placed before DATABASE occurs in it. *)
Theorem C8_classification (o : LogConverter) :
  let path := lower (file_path o) in
  (exists! t : FeatureTag,
      feature_tag (extract_class_info o) = feature_tag_text t) /\
  feature_tag (extract_class_info o)
    = feature_tag_text (first_match priority_table path) /\
  (contains (txt "database") path = true ->
   classify (file_path o) <> NETWORK) /\
  (contains (txt "database") path = true ->
   contains (txt "network") path = true ->
   (forall k, In k before_database -> contains k path = false) ->
   classify (file_path o) = DATABASE).
Proof.
  cbn zeta. split; [|split; [|split]].
  - exists (classify (file_path o)). split; [reflexivity|].
    intros t H. cbn in H. now apply feature_tag_text_inj in H.
  - cbn [extract_class_info feature_tag]. now rewrite classify_first_match.
  - intros Hdb. unfold classify. rewrite Hdb. cbn [orb].
    repeat match goal with
           | |- context [if ?b then _ else _] => destruct b; try discriminate
           end.
  - intros Hdb _ Hnone. unfold classify. rewrite Hdb. cbn [orb].
    rewrite !Hnone by (unfold before_database; cbn [In]; tauto).
    reflexivity.
Qed.

Lemma C8_classification_witness :
  let o := new_converter (txt "/app/data/Database/NetworkCache.kt") in
  classify (file_path o) <> NETWORK /\ classify (file_path o) = DATABASE.
Proof.
  intro o.
  destruct (C8_classification o) as (_ & _ & H1 & H2).
  split.
  - apply H1. vm_compute. reflexivity.
  - apply H2.
    + vm_compute. reflexivity.
    + vm_compute. reflexivity.
    + intros k Hk. unfold before_database in Hk. cbn [In] in Hk.
      repeat (destruct Hk as [Hk|Hk]; [subst k; vm_compute; reflexivity|]).
      destruct Hk.
Defined.

(* ================================================================= *)
(** ** The early returns of [convert] *)

(** A run that finds the canonical field declaration, or none of the
    three markers, stops after reading. *)
Lemma convert_skip (p c : text) (w : world) :
  file_text w p = Some c ->
  contains LOGGER_DECL c || no_legacy_marker c = true ->
  convert (new_converter p) w
  = (Ok false, set_content (new_converter p) c, log_event w (EvRead p)).
Proof.
  intros Hr Hs.
  unfold convert, try_except, convert_body, bind, read_file, get_content.
  unfold file_text in Hr. cbn [file_path new_converter]. rewrite Hr.
  cbn [content set_content].
  destruct (contains LOGGER_DECL c); [reflexivity|].
  cbn [orb] in Hs. rewrite Hs. reflexivity.
Qed.

Lemma starts_with_prefix (n m s : text) :
  starts_with (n ++ m) s = true -> starts_with n s = true.
Proof.
  revert s. induction n as [|x n IH]; intros s H; [reflexivity|].
  destruct s as [|y s]; cbn [app starts_with] in *; [discriminate|].
  apply andb_true_iff in H as [H1 H2]. now rewrite H1, (IH _ H2).
Qed.

Lemma contains_prefix (n m s : text) :
  contains n s = false -> contains (n ++ m) s = false.
Proof.
  induction s as [|y s IH]; cbn [contains]; intro H.
  - rewrite orb_false_r in *.
    destruct (starts_with (n ++ m) []) eqn:E; [|reflexivity].
    now rewrite (starts_with_prefix _ _ _ E) in H.
  - apply orb_false_iff in H as [H1 H2]. rewrite (IH H2), orb_false_r.
    destruct (starts_with (n ++ m) (y :: s)) eqn:E; [|reflexivity].
    now rewrite (starts_with_prefix _ _ _ E) in H1.
Qed.

(** A text with neither [Timber] nor [Log.] in it passes the test of
    [convert] for a file without logging. *)
Lemma no_marker_of_neither (c : text) :
  contains (txt "Timber") c = false ->
  contains (txt "Log.") c = false ->
  no_legacy_marker c = true.
Proof.
  intros H1 H2. unfold no_legacy_marker. rewrite H1.
  change (txt "Log.d") with (txt "Log." ++ txt "d").
  change (txt "Log.e") with (txt "Log." ++ txt "e").
  now rewrite !contains_prefix by exact H2.
Qed.

(** C6.  A readable file whose text has neither legacy marker, be it
    that the test of [convert] finds none of its markers or that the text
    has neither [Timber] nor [Log.] in it, is skipped: [convert] returns
    [False], every file of the tree keeps its content, and the only event
    of the run is the read, so nothing is written. *)
Theorem C6_untouched_file (p c : text) (w : world) :
  file_text w p = Some c ->
  no_legacy_marker c = true \/
  (contains (txt "Timber") c = false /\ contains (txt "Log.") c = false) ->
  let '(r, _, w') := convert (new_converter p) w in
  r = Ok false /\
  file_text w' p = Some c /\
  w_fs w' = w_fs w /\
  w_trace w' = w_trace w ++ [EvRead p].
Proof.
  intros Hr Hm.
  assert (Hn : no_legacy_marker c = true).
  { destruct Hm as [Hm|[H1 H2]]; [exact Hm|now apply no_marker_of_neither]. }
  rewrite (convert_skip p w Hr) by (rewrite Hn; apply orb_true_r).
  repeat split. exact Hr.
Qed.

Lemma C6_untouched_file_witness :
  let p := txt "/app/ui/Plain.kt" in
  let c := txt "class Plain { fun f() = 1 }" in
  let '(r, _, w') := convert (new_converter p) (single_file p c) in
  r = Ok false /\
  file_text w' p = Some c /\
  w_fs w' = w_fs (single_file p c) /\
  w_trace w' = w_trace (single_file p c) ++ [EvRead p].
Proof.
  intros p c.
  apply (@C6_untouched_file p c (single_file p c)).
  - vm_compute. reflexivity.
  - right. split; vm_compute; reflexivity.
Defined.

(** The text of a file whose only call is [Log.<letter>(QTagQ, QmsgQ)]. *)
Definition only_log_call (letter : ascii) : text :=
  txt "    Log." ++ [letter] ++ txt "(" ++ [dq] ++ txt "Tag" ++ [dq]
  ++ txt ", " ++ [dq] ++ txt "msg" ++ [dq] ++ txt ")".

(** C10.  A readable file whose text has none of the substrings
    [Timber], [Log.d], [Log.e] is skipped and left as it is; so is a file
    whose only call is [Log.i], [Log.w] or [Log.v], although its line is
    one that the line transform would rewrite. *)
Theorem C10_skip_without_markers :
  (forall (p c : text) (w : world),
      file_text w p = Some c ->
      contains (txt "Timber") c = false ->
      contains (txt "Log.d") c = false ->
      contains (txt "Log.e") c = false ->
      let '(r, _, w') := convert (new_converter p) w in
      r = Ok false /\ w_fs w' = w_fs w /\ file_text w' p = Some c) /\
  (forall (letter : ascii) (p : text) (w : world),
      In letter (txt "iwv") ->
      file_text w p = Some (only_log_call letter) ->
      is_candidate (only_log_call letter) = true /\
      (exists o', process_content
                    (set_content (new_converter p) (only_log_call letter))
                  = Ok o' /\ content o' <> only_log_call letter) /\
      let '(r, _, w') := convert (new_converter p) w in
      r = Ok false /\ w_fs w' = w_fs w /\
      file_text w' p = Some (only_log_call letter)).
Proof.
  split.
  - intros p c w Hr H1 H2 H3.
    rewrite (convert_skip p w Hr).
    + repeat split. exact Hr.
    + unfold no_legacy_marker. rewrite H1, H2, H3. apply orb_true_r.
  - intros letter p w Hin Hr.
    assert (Hc : letter = "i"%char \/ letter = "w"%char \/ letter = "v"%char).
    { cbn in Hin. intuition. }
    split; [|split].
    + destruct Hc as [->|[->| ->]]; vm_compute; reflexivity.
    + destruct Hc as [->|[->| ->]];
        (eexists; split; [vm_compute; reflexivity|]);
        cbn [content]; vm_compute; discriminate.
    + rewrite (convert_skip p w Hr).
      * repeat split. exact Hr.
      * destruct Hc as [->|[->| ->]]; vm_compute; reflexivity.
Qed.

Lemma C10_skip_without_markers_witness :
  let p := txt "/app/ui/Info.kt" in
  let w := single_file p (only_log_call "i"%char) in
  is_candidate (only_log_call "i"%char) = true /\
  let '(r, _, w') := convert (new_converter p) w in
  r = Ok false /\ w_fs w' = w_fs w /\
  file_text w' p = Some (only_log_call "i"%char).
Proof.
  intros p w.
  destruct C10_skip_without_markers as [_ H].
  destruct (H "i"%char p w) as (H1 & _ & H2).
  - cbn. left. reflexivity.
  - vm_compute. reflexivity.
  - split; [exact H1|exact H2].
Defined.

(* ================================================================= *)
(** ** Failures stay inside [convert] *)

Lemma convert_caught (o o' : LogConverter) (w w' : world) (e : exn) :
  convert_body o w = (Raise e, o', w') ->
  convert o w
  = (Ok false, o', log_event w' (EvPrintError (file_path o') e)).
Proof.
  intro H. unfold convert, try_except. rewrite H. reflexivity.
Qed.

Lemma convert_returns (o : LogConverter) (w : world) :
  exists b o' w', convert o w = (Ok b, o', w').
Proof.
  unfold convert, try_except.
  destruct (convert_body o w) as [[[b|e] o'] w'].
  - now exists b, o', w'.
  - now exists false, o', (log_event w' (EvPrintError (file_path o') e)).
Qed.

Lemma main_loop_total (files : list text) :
  forall (cc sc : nat) (w : world),
  exists cc' sc' w',
    main_loop files cc sc w = (Ok (cc', sc'), w') /\
    cc' + sc' = cc + sc + length files.
Proof.
  induction files as [|p rest IH]; intros cc sc w; cbn [main_loop].
  - exists cc, sc, w. split; [reflexivity|]. cbn. lia.
  - destruct (convert_returns (new_converter p) w) as (b & o' & w' & E).
    rewrite E. destruct b.
    + destruct (IH (cc + 1) sc
                  (log_event w' (EvPrintConverted p (changes_made o'))))
        as (cc' & sc' & w'' & E' & Hsum).
      exists cc', sc', w''. split; [exact E'|]. cbn [length]. lia.
    + destruct (IH cc (sc + 1) w') as (cc' & sc' & w'' & E' & Hsum).
      exists cc', sc', w''. split; [exact E'|]. cbn [length]. lia.
Qed.

(** The methods keep [self.file_path]. *)
Lemma process_content_path (o o' : LogConverter) :
  process_content o = Ok o' -> file_path o' = file_path o.
Proof.
  unfold process_content, rbind.
  destruct (process_lines _ _ _) as [[ls ch]|e]; intro H; inversion H.
  reflexivity.
Qed.

Lemma update_imports_path (o o' : LogConverter) :
  update_imports o = Ok o' -> file_path o' = file_path o.
Proof.
  unfold update_imports, rbind.
  destruct (re_delete _ _) as [c1|e]; [|discriminate].
  destruct (re_delete _ _) as [c2|e]; [|discriminate].
  destruct (negb _); [destruct (re_search _ _ _)|];
    intro H; inversion H; reflexivity.
Qed.

Lemma add_logger_instance_path (o : LogConverter) :
  file_path (add_logger_instance o) = file_path o.
Proof.
  unfold add_logger_instance.
  destruct (_ || _); [reflexivity|].
  destruct (re_search _ _ _); reflexivity.
Qed.

Lemma convert_body_path (o o' : LogConverter) (w w' : world)
  (r : result bool) :
  convert_body o w = (r, o', w') -> file_path o' = file_path o.
Proof.
  unfold convert_body, bind, read_file, get_content, write_file, ret.
  destruct (file_data _) as [c|]; [|intro H; inversion H; reflexivity].
  cbn [content set_content].
  destruct (contains LOGGER_DECL c); [intro H; inversion H; reflexivity|].
  destruct (no_legacy_marker c); [intro H; inversion H; reflexivity|].
  unfold lift. cbn beta iota.
  set (o1 := extract_class_info _).
  assert (P1 : file_path o1 = file_path o) by reflexivity.
  destruct (process_content o1) as [o2|e] eqn:E2;
    [|intro H; inversion H; subst; exact P1].
  pose proof (process_content_path _ E2) as P2.
  destruct (update_imports o2) as [o3|e] eqn:E3;
    [|intro H; inversion H; subst; congruence].
  pose proof (update_imports_path _ E3) as P3.
  pose proof (add_logger_instance_path o3) as P4.
  destruct (file_writable _); intro H; inversion H; subst; congruence.
Qed.

(** C9.  When anything raised while reading, transforming or writing the
    file at [p], [convert] returns [False] after printing the error; the
    loop of [main] counts the file as skipped and goes on with the files
    left, and runs to its end with every file counted once. *)
Theorem C9_failure_isolated (p : text) (rest : list text) (cc sc : nat)
  (w w' : world) (o' : LogConverter) (e : exn) :
  convert_body (new_converter p) w = (Raise e, o', w') ->
  let w1 := log_event w' (EvPrintError p e) in
  convert (new_converter p) w = (Ok false, o', w1) /\
  main_loop (p :: rest) cc sc w = main_loop rest cc (sc + 1) w1 /\
  exists cc' sc' w2,
    main_loop (p :: rest) cc sc w = (Ok (cc', sc'), w2) /\
    cc' + sc' = cc + sc + length (p :: rest).
Proof.
  intros H w1.
  pose proof (convert_caught _ _ H) as Hc.
  rewrite (convert_body_path _ _ H) in Hc. cbn [file_path new_converter] in Hc.
  split; [exact Hc|]. split.
  - cbn [main_loop]. rewrite Hc. reflexivity.
  - apply main_loop_total.
Qed.

(** A tree where the first file cannot be read and the second is plain. *)
Definition broken_then_plain : world :=
  mkWorld
    (fun p' => if text_eqb p' (txt "/app/B.kt")
               then mkFile (Some (txt "class B")) true
               else mkFile None false)
    [].

Lemma C9_failure_isolated_witness :
  convert (new_converter (txt "/app/A.kt")) broken_then_plain
  = (Ok false, new_converter (txt "/app/A.kt"),
     log_event broken_then_plain
       (EvPrintError (txt "/app/A.kt") (OSError (txt "/app/A.kt")))) /\
  fst (main_loop [txt "/app/A.kt"; txt "/app/B.kt"] 0 0 broken_then_plain)
  = Ok (0, 2).
Proof.
  destruct (@C9_failure_isolated (txt "/app/A.kt") [txt "/app/B.kt"] 0 0
              broken_then_plain broken_then_plain
              (new_converter (txt "/app/A.kt"))
              (OSError (txt "/app/A.kt"))) as (H1 & H2 & _).
  - vm_compute. reflexivity.
  - split; [exact H1|].
    rewrite H2. vm_compute. reflexivity.
Defined.

(* ================================================================= *)
(** ** The backward scan of [extract_method_name] *)

Lemma range_down_In (start stop j : nat) :
  In j (range_down start stop) <-> stop < j <= start.
Proof.
  unfold range_down. rewrite <- in_rev, in_seq. lia.
Qed.

Lemma range_down_split (start stop i : nat) :
  stop < i <= start ->
  range_down start stop = range_down start i ++ i :: range_down (i - 1) stop.
Proof.
  intro H. unfold range_down.
  replace (start - stop) with ((i - 1 - stop) + (1 + (start - i))) by lia.
  rewrite seq_app, seq_app, !rev_app_distr.
  replace (S stop + (i - 1 - stop)) with i by lia.
  replace (i + 1) with (S i) by lia.
  cbn [seq rev app]. now rewrite <- app_assoc.
Qed.

Lemma scan_lines_skip (lines : list text) (l1 rest : list nat) :
  (forall j, In j l1 ->
     exists l, nth_error lines j = Some l /\
               re_search false fun_re l = None) ->
  scan_lines lines (l1 ++ rest) = scan_lines lines rest.
Proof.
  induction l1 as [|j l1 IH]; intro H; [reflexivity|].
  cbn [app scan_lines].
  destruct (H j (or_introl eq_refl)) as (l & Hl & Hn).
  rewrite Hl, Hn. apply IH. intros j' Hj'. apply H. now right.
Qed.

Lemma scan_lines_none (lines : list text) (idx : list nat) :
  (forall j, In j idx ->
     exists l, nth_error lines j = Some l /\
               re_search false fun_re l = None) ->
  scan_lines lines idx = Ok (txt "unknown").
Proof.
  intro H. rewrite <- (app_nil_r idx). now rewrite scan_lines_skip.
Qed.

Lemma nth_error_in_range (A : Type) (l : list A) (j : nat) :
  j < length l -> exists x, nth_error l j = Some x.
Proof.
  intro H. destruct (nth_error l j) eqn:E; [now eexists|].
  apply nth_error_None in E. lia.
Qed.

(** C4, as stated, fails.  With a declaration on the first line and the
    call on the second, the line before the call matches the signature
    and the scan still answers [unknown]; and with the declaration on the
    call line itself, no line before the call matches and the scan
    answers with the name found on the call line. *)
Lemma C4_counterexample :
  (re_matches false fun_re (txt "fun foo() {") = true /\
   extract_method_name
     (txt "fun foo() {" ++ [nl] ++ txt "    Timber.tag(TAG).d(msg)") 2
   = Ok (txt "unknown")) /\
  (re_matches false fun_re (txt "class A {") = false /\
   extract_method_name
     (txt "class A {" ++ [nl] ++ txt "    fun bar() = Timber.tag(TAG).d(msg)")
     2
   = Ok (txt "bar")).
Proof. repeat split; vm_compute; reflexivity. Qed.

(** C4 (amended).  For a line number inside the text, the scan starts at
    the call line itself (index [line_num - 1] of the lines) and goes
    backward: it returns the name captured on the first line it meets
    that matches the declaration signature, for the lines of index
    [line_num - 1] down to [max(0, line_num - 50) + 1]; and it returns
    [unknown] whenever no line of index [line_num - 1] down to
    [max(0, line_num - 50)] matches. *)
Theorem C4_resolve_context (c : text) (line_num : nat) :
  let lines := split_on nl c in
  1 <= line_num <= length lines ->
  (forall (i : nat) (line : text) (m : rmatch_obj),
      Nat.max 0 (line_num - 50) < i <= line_num - 1 ->
      nth_error lines i = Some line ->
      re_search false fun_re line = Some m ->
      (forall j l, i < j <= line_num - 1 -> nth_error lines j = Some l ->
                   re_search false fun_re l = None) ->
      extract_method_name c line_num = Ok (group_text 1 m)) /\
  ((forall j l, Nat.max 0 (line_num - 50) <= j <= line_num - 1 ->
                nth_error lines j = Some l ->
                re_search false fun_re l = None) ->
   extract_method_name c line_num = Ok (txt "unknown")).
Proof.
  intros lines Hn. unfold extract_method_name. fold lines. split.
  - intros i line m Hi Hl Hm Hafter.
    rewrite (range_down_split Hi), scan_lines_skip.
    + cbn [scan_lines]. now rewrite Hl, Hm.
    + intros j Hj. apply range_down_In in Hj.
      destruct (@nth_error_in_range _ lines j) as [l E]; [lia|].
      exists l. split; [exact E|]. apply (Hafter j l); [lia|exact E].
  - intro Hnone. apply scan_lines_none.
    intros j Hj. apply range_down_In in Hj.
    destruct (@nth_error_in_range _ lines j) as [l E]; [lia|].
    exists l. split; [exact E|]. apply (Hnone j l); [lia|exact E].
Qed.

Lemma C4_resolve_context_witness :
  extract_method_name
    (txt "class A {" ++ [nl] ++ txt "  fun load(x: Int) {" ++ [nl]
     ++ txt "    val y = x" ++ [nl] ++ txt "    Timber.tag(TAG).d(msg)")
    4
  = Ok (txt "load").
Proof.
  set (c := txt "class A {" ++ _).
  destruct (@C4_resolve_context c 4) as [H _].
  - vm_compute. lia.
  - assert (Hm : exists m, re_search false fun_re (txt "  fun load(x: Int) {")
                           = Some m /\ group_text 1 m = txt "load").
    { eexists. split; vm_compute; reflexivity. }
    destruct Hm as (m & Hm & Hg). rewrite <- Hg.
    apply (H 1 (txt "  fun load(x: Int) {") m).
    + vm_compute. lia.
    + vm_compute. reflexivity.
    + exact Hm.
    + intros j l Hj Hl.
      assert (Hc : j = 2 \/ j = 3) by (cbn in Hj; lia).
      destruct Hc as [-> | ->]; vm_compute in Hl; inversion Hl; subst l;
        vm_compute; reflexivity.
Defined.

(* ================================================================= *)
(** ** The matcher on texts of a known shape *)

Section MatcherFacts.
Variable R : Type.
Implicit Types (k : cont R) (b s : text) (c : caps).

Lemma lit_exact (l : text) b s c k :
  lit false l b (l ++ s) c k = k (rev l ++ b) s c.
Proof.
  revert b. induction l as [|x l IH]; intro b; [reflexivity|].
  cbn [lit app chr_eq]. rewrite ascii_eqb_refl, IH.
  cbn [rev]. now rewrite <- app_assoc.
Qed.

(** A greedy repetition takes the whole run of its class when the run
    ends there and what follows lets the rest of the pattern match. *)
Lemma star_cls_greedy (p : ascii -> bool) (xs : text) b s c k (r : R) :
  forallb p xs = true ->
  match s with [] => true | y :: _ => negb (p y) end = true ->
  k (rev xs ++ b) s c = Some r ->
  star_cls p b (xs ++ s) c k = Some r.
Proof.
  revert b. induction xs as [|x xs IH]; intros b Hp Hs Hk.
  - cbn [app rev] in *. destruct s as [|y s]; cbn [star_cls]; [exact Hk|].
    apply negb_true_iff in Hs. now rewrite Hs.
  - cbn [forallb] in Hp. apply andb_true_iff in Hp as [Hx Hp].
    cbn [app star_cls]. rewrite Hx.
    rewrite (IH (x :: b) Hp Hs); [reflexivity|].
    cbn [rev] in Hk. now rewrite <- app_assoc in Hk.
Qed.

(** A greedy repetition that can run to the end of the text gives back
    its last character when the rest of the pattern needs it. *)
Lemma star_cls_back (p : ascii -> bool) (xs : text) (y : ascii)
  b c k (r : R) :
  forallb p xs = true ->
  p y = true ->
  (forall b', k b' [] c = None) ->
  k (rev xs ++ b) [y] c = Some r ->
  star_cls p b (xs ++ [y]) c k = Some r.
Proof.
  revert b. induction xs as [|x xs IH]; intros b Hp Hy Hend Hk.
  - cbn [app rev star_cls] in *. now rewrite Hy, Hend.
  - cbn [forallb] in Hp. apply andb_true_iff in Hp as [Hx Hp].
    cbn [app star_cls]. rewrite Hx.
    rewrite (IH (x :: b) Hp Hy Hend); [reflexivity|].
    cbn [rev] in Hk. now rewrite <- app_assoc in Hk.
Qed.
End MatcherFacts.

Lemma search_from_here (ci : bool) (r : re) (b s : text)
  (m : rmatch_obj * text) :
  match_at ci r b s = Some m -> search_from ci r b s = Some m.
Proof. intro H. destruct s; cbn [search_from]; now rewrite H. Qed.

Lemma firstn_app_exact (A : Type) (a b : list A) (n : nat) :
  n = length (a ++ b) - length b -> firstn n (a ++ b) = a.
Proof.
  intros ->. rewrite length_app, Nat.add_sub.
  rewrite firstn_app, Nat.sub_diag, firstn_all. cbn. apply app_nil_r.
Qed.

(** ** Splitting at a comma *)

Lemma split1_first (sep : ascii) (l r : text) :
  forallb (is_not sep) l = true ->
  split1 sep (l ++ sep :: r) = (l, Some r).
Proof.
  induction l as [|x l IH]; intro H; cbn [app split1].
  - now rewrite ascii_eqb_refl.
  - cbn [forallb] in H. apply andb_true_iff in H as [Hx Hl].
    unfold is_not in Hx. apply negb_true_iff in Hx. rewrite Hx.
    now rewrite (IH Hl).
Qed.

Lemma forallb_rev (p : ascii -> bool) (l : text) :
  forallb p (rev l) = forallb p l.
Proof.
  induction l as [|x l IH]; [reflexivity|].
  cbn [rev forallb]. rewrite forallb_app, IH. cbn [forallb].
  rewrite andb_true_r. apply andb_comm.
Qed.

Lemma rsplit1_last (sep : ascii) (l r : text) :
  forallb (is_not sep) r = true ->
  rsplit1 sep (l ++ sep :: r) = (l, Some r).
Proof.
  intro H. unfold rsplit1.
  rewrite rev_app_distr. cbn [rev]. rewrite <- app_assoc. cbn [app].
  rewrite split1_first by now rewrite forallb_rev.
  now rewrite !rev_involutive.
Qed.

Lemma count_char_middle (sep : ascii) (l r : text) :
  (1 <=? count_char sep (l ++ sep :: r)) = true.
Proof.
  apply Nat.leb_le. unfold count_char.
  rewrite filter_app, length_app. cbn [filter].
  rewrite ascii_eqb_refl. cbn [length]. lia.
Qed.

Lemma contains_char_middle (sep : ascii) (l r : text) :
  contains [sep] (l ++ sep :: r) = true.
Proof.
  change (sep :: r) with ([sep] ++ r). apply contains_middle.
Qed.

(* ================================================================= *)
(** ** The two legacy forms *)

(** Form A: [Timber.tag(<tag>).<level>(<args>)]. *)
Definition timber_call (tag : text) (level : ascii) (args : text) : text :=
  txt "Timber.tag(" ++ tag ++ txt ")." ++ [level] ++ txt "(" ++ args
  ++ txt ")".

(** Form B: [Log.<level>(Q<tag>Q,<ws><args>)], [Q] the double quote and
    [ws] the white space after the comma. *)
Definition log_call (level : ascii) (tag ws args : text) : text :=
  txt "Log." ++ [level] ++ txt "(" ++ [dq] ++ tag ++ [dq] ++ txt ","
  ++ ws ++ args ++ txt ")".

Definition starts_black (s : text) : bool :=
  match s with
  | [] => true
  | y :: _ => negb (is_space y)
  end.

Lemma timber_re_search (tag args : text) (level : ascii) :
  tag <> [] ->
  forallb (is_not rparen) tag = true ->
  level_letter level = true ->
  forallb is_dot args = true ->
  exists m,
    re_search false timber_re (timber_call tag level args) = Some m /\
    group_text 1 m = [level] /\ group_text 2 m = args.
Proof.
  intros Hne Htag Hlv Hargs.
  destruct tag as [|x tag]; [congruence|]. clear Hne.
  cbn [forallb] in Htag. apply andb_true_iff in Htag as [Hx Htag].
  eexists. split.
  - unfold re_search. erewrite search_from_here; [reflexivity|].
    unfold match_at, timber_call, timber_re, L. cbn [rmatch].
    rewrite lit_exact. cbn [app]. rewrite Hx.
    apply star_cls_greedy; [exact Htag|reflexivity|].
    rewrite lit_exact. cbn [app]. rewrite Hlv.
    rewrite lit_exact.
    apply star_cls_back; [exact Hargs|reflexivity|reflexivity|].
    change [")"%char] with (txt ")" ++ []) at 1.
    rewrite lit_exact. reflexivity.
  - cbn [group_text group m_groups fst Nat.eqb]. split.
    + now apply (firstn_app_exact [level]).
    + now apply firstn_app_exact.
Qed.

Lemma log_re_search (level : ascii) (tag ws args : text) :
  tag <> [] ->
  forallb (is_not dq) tag = true ->
  level_letter level = true ->
  forallb is_space ws = true ->
  starts_black args = true ->
  forallb is_dot args = true ->
  exists m,
    re_search false log_re (log_call level tag ws args) = Some m /\
    group_text 1 m = [level] /\ group_text 3 m = args.
Proof.
  intros Hne Htag Hlv Hws Hblack Hargs.
  destruct tag as [|x tag]; [congruence|]. clear Hne.
  cbn [forallb] in Htag. apply andb_true_iff in Htag as [Hx Htag].
  eexists. split.
  - unfold re_search. erewrite search_from_here; [reflexivity|].
    unfold match_at, log_call, log_re, L. cbn [rmatch].
    rewrite lit_exact. cbn [app]. rewrite Hlv.
    rewrite lit_exact.
    change (dq :: x :: tag ++ dq :: txt "," ++ ws ++ args ++ txt ")")
      with ([dq] ++ x :: tag ++ [dq] ++ txt "," ++ ws ++ args ++ txt ")").
    rewrite lit_exact. cbn [app]. rewrite Hx.
    apply star_cls_greedy;
      [exact Htag|reflexivity|].
    change (dq :: txt "," ++ ws ++ args ++ txt ")")
      with ([dq] ++ txt "," ++ ws ++ args ++ txt ")").
    rewrite lit_exact, lit_exact.
    apply star_cls_greedy; [exact Hws| |].
    { destruct args as [|y args]; [reflexivity|exact Hblack]. }
    apply star_cls_back; [exact Hargs|reflexivity|reflexivity|].
    change [")"%char] with (txt ")" ++ []) at 1.
    rewrite lit_exact. reflexivity.
  - cbn [group_text group m_groups fst Nat.eqb]. split.
    + now apply (firstn_app_exact [level]).
    + now apply firstn_app_exact.
Qed.

(* ================================================================= *)
(** ** Error-level calls *)

Definition converted_timber (line_num : nat) (level method : text) : text :=
  change_line line_num
    (txt "Converted Timber." ++ level ++ txt "() to logger." ++ method
     ++ txt "()").

Definition converted_log (line_num : nat) (level method : text) : text :=
  change_line line_num
    (txt "Converted Log." ++ level ++ txt "() to logger." ++ method
     ++ txt "()").

Lemma level_map_e : level_map (txt "e") = txt "error".
Proof. reflexivity. Qed.

Lemma error_is_error : text_eqb (txt "error") (txt "error") = true.
Proof. reflexivity. Qed.

(** What [convert_log_call] makes of an error-level Form A call that is
    kept. *)
Lemma convert_timber_error (c : text) (line_num : nat) (tag args ctx : text) :
  tag <> [] ->
  forallb (is_not rparen) tag = true ->
  forallb is_dot args = true ->
  should_remove_log (timber_call tag "e" args) = false ->
  extract_method_name c line_num = Ok ctx ->
  convert_log_call c (timber_call tag "e" args) line_num
  = Ok (if contains [comma] args then
          logger_call (txt "error") ctx
            (match snd (split1 comma args) with
             | Some p1 => strip p1
             | None => [dq; dq]
             end ++ txt ", " ++ strip (fst (split1 comma args)))
        else logger_call (txt "error") ctx args,
        [converted_timber line_num (txt "e") (txt "error")]).
Proof.
  intros Hne Htag Hargs Hnoise Hctx.
  destruct (@timber_re_search tag args "e"%char Hne Htag eq_refl Hargs)
    as (m & Hm & H1 & H2).
  unfold convert_log_call. rewrite Hnoise, Hm, H1, H2, Hctx.
  cbn [rbind]. change ["e"%char] with (txt "e").
  rewrite level_map_e, error_is_error. cbn [andb].
  destruct (contains [comma] args); reflexivity.
Qed.

(** What it makes of an error-level Form B call that is kept and holds
    no Form A call. *)
Lemma convert_log_error (c : text) (line_num : nat) (tag ws args ctx : text) :
  tag <> [] ->
  forallb (is_not dq) tag = true ->
  forallb is_space ws = true ->
  starts_black args = true ->
  forallb is_dot args = true ->
  should_remove_log (log_call "e" tag ws args) = false ->
  re_search false timber_re (log_call "e" tag ws args) = None ->
  extract_method_name c line_num = Ok ctx ->
  convert_log_call c (log_call "e" tag ws args) line_num
  = (let? converted :=
       if 1 <=? count_char comma args then
         match rsplit1 comma args with
         | (p0, Some p1) =>
             Ok (logger_call (txt "error") ctx
                   (strip p0 ++ txt ", " ++ strip p1))
         | (_, None) => Raise IndexError
         end
       else Ok (logger_call (txt "error") ctx args) in
     Ok (converted, [converted_log line_num (txt "e") (txt "error")]))%res.
Proof.
  intros Hne Htag Hws Hblack Hargs Hnoise Hnot Hctx.
  destruct (@log_re_search "e"%char tag ws args Hne Htag eq_refl Hws Hblack
              Hargs) as (m & Hm & H1 & H3).
  unfold convert_log_call. rewrite Hnoise, Hnot, Hm, H1, H3, Hctx.
  cbn [rbind]. change ["e"%char] with (txt "e").
  rewrite level_map_e, error_is_error. cbn [andb]. reflexivity.
Qed.

(** The replacement text of a call that did not raise. *)
Definition fst_ok (A B : Type) (r : result (A * B)) : option A :=
  match r with
  | Ok (a, _) => Some a
  | Raise _ => None
  end.

(** C3, as stated, fails: a Form A error call with a single argument is
    rewritten with that argument alone, no empty literal is added. *)
Lemma C3_counterexample :
  fst_ok (convert_log_call [] (timber_call (txt "TAG") "e" (txt "exc")) 1)
  = Some (logger_call (txt "error") (txt "unknown") (txt "exc")) /\
  logger_call (txt "error") (txt "unknown") (txt "exc")
  <> logger_call (txt "error") (txt "unknown")
       ([dq; dq] ++ txt ", " ++ txt "exc").
Proof. split; [vm_compute; reflexivity|vm_compute; discriminate]. Qed.

(** C3 (amended).  For every Form A error-level call, not noise, whose
    captured argument text contains no comma, no split takes place: the
    whole argument is the message and the call becomes
    [logger.error(Q<ctx>Q, <argument>)]. *)
Theorem C3_error_without_comma (c : text) (line_num : nat)
  (tag args ctx : text) :
  tag <> [] ->
  forallb (is_not rparen) tag = true ->
  forallb is_dot args = true ->
  should_remove_log (timber_call tag "e" args) = false ->
  extract_method_name c line_num = Ok ctx ->
  contains [comma] args = false ->
  convert_log_call c (timber_call tag "e" args) line_num
  = Ok (logger_call (txt "error") ctx args,
        [converted_timber line_num (txt "e") (txt "error")]).
Proof.
  intros Hne Htag Hargs Hnoise Hctx Hcomma.
  rewrite (@convert_timber_error c line_num tag args ctx Hne Htag Hargs
             Hnoise Hctx).
  now rewrite Hcomma.
Qed.

Lemma C3_error_without_comma_witness :
  convert_log_call [] (timber_call (txt "TAG") "e" (txt "exc")) 1
  = Ok (logger_call (txt "error") (txt "unknown") (txt "exc"),
        [converted_timber 1 (txt "e") (txt "error")]).
Proof.
  apply C3_error_without_comma; try (vm_compute; reflexivity).
  discriminate.
Defined.

(** C1, as stated, fails: an error-level call whose text matches a noise
    signature is deleted, not rewritten. *)
Lemma C1_counterexample :
  convert_log_call []
    (timber_call (txt "TAG") "e"
       (txt "exc, " ++ [dq] ++ txt "TODO boom" ++ [dq])) 1
  = Ok ([], [change_line 1 (txt "REMOVED unnecessary log")]).
Proof. vm_compute. reflexivity. Qed.

(** C1 (amended).  For every error-level legacy call that matches no
    noise signature, the output has the message before the exception.
    Form A: the argument list is split on its first comma and the left
    part is emitted last.  Form B (a call that holds no Form A call): the
    remainder is split on its last comma and the right part is emitted
    last.  Both parts are stripped of surrounding white space. *)
Theorem C1_error_ordering (c : text) (line_num : nat) (ctx : text) :
  extract_method_name c line_num = Ok ctx ->
  (forall tag exc msg : text,
      tag <> [] ->
      forallb (is_not rparen) tag = true ->
      forallb is_dot (exc ++ comma :: msg) = true ->
      forallb (is_not comma) exc = true ->
      should_remove_log (timber_call tag "e" (exc ++ comma :: msg)) = false ->
      convert_log_call c (timber_call tag "e" (exc ++ comma :: msg)) line_num
      = Ok (logger_call (txt "error") ctx
              (strip msg ++ txt ", " ++ strip exc),
            [converted_timber line_num (txt "e") (txt "error")])) /\
  (forall tag ws msg exc : text,
      tag <> [] ->
      forallb (is_not dq) tag = true ->
      forallb is_space ws = true ->
      starts_black (msg ++ comma :: exc) = true ->
      forallb is_dot (msg ++ comma :: exc) = true ->
      forallb (is_not comma) exc = true ->
      should_remove_log (log_call "e" tag ws (msg ++ comma :: exc)) = false ->
      re_search false timber_re (log_call "e" tag ws (msg ++ comma :: exc))
      = None ->
      convert_log_call c (log_call "e" tag ws (msg ++ comma :: exc)) line_num
      = Ok (logger_call (txt "error") ctx
              (strip msg ++ txt ", " ++ strip exc),
            [converted_log line_num (txt "e") (txt "error")])).
Proof.
  intro Hctx. split.
  - intros tag exc msg Hne Htag Hdot Hexc Hnoise.
    rewrite (@convert_timber_error c line_num tag _ ctx Hne Htag Hdot Hnoise
               Hctx).
    rewrite contains_char_middle, split1_first by exact Hexc.
    reflexivity.
  - intros tag ws msg exc Hne Htag Hws Hblack Hdot Hexc Hnoise Hnot.
    rewrite (@convert_log_error c line_num tag ws _ ctx Hne Htag Hws Hblack
               Hdot Hnoise Hnot Hctx).
    rewrite count_char_middle, rsplit1_last by exact Hexc.
    reflexivity.
Qed.

(** The two calls of the specification: [Timber.tag(TAG).e(exc, QboomQ)] and
    [Log.e(QTAGQ, QboomQ, exc)] both become
    [logger.error(QunknownQ, QboomQ, exc)]. *)
Lemma C1_error_ordering_witness :
  let boom := [dq] ++ txt "boom" ++ [dq] in
  let out := logger_call (txt "error") (txt "unknown")
               (boom ++ txt ", " ++ txt "exc") in
  fst_ok (convert_log_call []
            (timber_call (txt "TAG") "e" (txt "exc, " ++ boom)) 1)
  = Some out /\
  fst_ok (convert_log_call []
            (log_call "e" (txt "TAG") (txt " ") (boom ++ txt ", exc")) 1)
  = Some out.
Proof.
  intros boom out.
  destruct (@C1_error_ordering [] 1 (txt "unknown") eq_refl) as [HA HB].
  split.
  - change (txt "exc, " ++ boom) with (txt "exc" ++ comma :: txt " " ++ boom).
    rewrite HA; try (vm_compute; reflexivity). discriminate.
  - change (boom ++ txt ", exc") with (boom ++ comma :: txt " exc").
    rewrite HB; try (vm_compute; reflexivity). discriminate.
Defined.

(* ================================================================= *)
(** ** Deleted noise *)

Lemma process_lines_drop (c : text) (before : list text) :
  forall (n : nat) (line : text) (after out1 out2 : list text)
         (ch1 ch ch2 : list text),
    process_lines c n before = Ok (out1, ch1) ->
    process_line c (n + length before) line = Ok (None, ch) ->
    process_lines c (S (n + length before)) after = Ok (out2, ch2) ->
    process_lines c n (before ++ line :: after)
    = Ok (out1 ++ out2, ch1 ++ ch ++ ch2).
Proof.
  induction before as [|l before IH];
    intros n line after out1 out2 ch1 ch ch2 H1 Hl H2.
  - cbn [process_lines] in H1. inversion H1; subst.
    cbn [length] in Hl, H2. rewrite Nat.add_0_r in Hl, H2.
    cbn [app process_lines]. rewrite Hl. cbn [rbind]. rewrite H2.
    cbn [rbind]. reflexivity.
  - cbn [app process_lines] in *. unfold rbind in H1 |- *.
    destruct (process_line c n l) as [[o chl]|e]; [|discriminate].
    destruct (process_lines c (S n) before) as [[ls chs]|e] eqn:E;
      [|discriminate].
    inversion H1; subst.
    cbn [length] in Hl, H2. rewrite <- plus_n_Sm in Hl, H2.
    rewrite (IH (S n) line after ls out2 chs ch ch2 E Hl H2).
    destruct o; cbn [app]; now rewrite <- !app_assoc.
Qed.

(* ================================================================= *)
(** ** A line that holds a noise call and nothing else *)

Lemma space_differs (x y : ascii) :
  is_space x = true -> is_space y = false -> ascii_eqb y x = false.
Proof.
  intros Hx Hy. destruct (ascii_eqb y x) eqn:E; [|reflexivity].
  apply ascii_eqb_true in E. subst y. congruence.
Qed.

Lemma call_re_not_at_space (b s : text) (x : ascii) :
  is_space x = true -> match_at false call_re b (x :: s) = None.
Proof.
  intro Hx. unfold match_at, call_re, L. cbn [rmatch].
  change (txt "Timber.tag(") with ("T"%char :: txt "imber.tag(").
  change (txt "Log.") with ("L"%char :: txt "og.").
  cbn [lit chr_eq].
  rewrite !(@space_differs x _ Hx) by reflexivity. reflexivity.
Qed.

Lemma call_re_not_at_end (b : text) : match_at false call_re b [] = None.
Proof. reflexivity. Qed.

Lemma rbind_eta (A B : Type) (m : result (A * B)) :
  (let? (a, b) := m in Ok (a, b))%res = m.
Proof. destruct m as [[a b]|e]; reflexivity. Qed.

Section SubFacts.
Variable W : Type.
Variable f : text -> result (text * list W).

(** White space before the first call is copied. *)
Lemma sub_from_spaces (ws : text) :
  forall (b s : text),
    forallb is_space ws = true ->
    sub_from false call_re f 0 b (ws ++ s)
    = (let? (out, ch) := sub_from false call_re f 0 (rev ws ++ b) s in
       Ok (ws ++ out, ch))%res.
Proof.
  induction ws as [|x ws IH]; intros b s H.
  - cbn [app rev]. now rewrite rbind_eta.
  - cbn [forallb] in H. apply andb_true_iff in H as [Hx Hws].
    cbn [app sub_from]. rewrite (@call_re_not_at_space b (ws ++ s) x Hx).
    rewrite (IH (x :: b) s Hws). cbn [rev]. rewrite <- app_assoc.
    cbn [app]. destruct (sub_from false call_re f 0 _ s) as [[out ch]|e];
      reflexivity.
Qed.

Lemma sub_from_only_spaces (ws b : text) :
  forallb is_space ws = true ->
  sub_from false call_re f 0 b ws = Ok (ws, []).
Proof.
  intro H. rewrite <- (app_nil_r ws) at 1.
  rewrite sub_from_spaces by exact H.
  cbn [sub_from]. rewrite call_re_not_at_end. cbn [rbind].
  now rewrite app_nil_r.
Qed.

(** The characters of a match are passed over. *)
Lemma sub_from_skip (xs : text) :
  forall (b s : text),
    sub_from false call_re f (length xs) b (xs ++ s)
    = sub_from false call_re f 0 (rev xs ++ b) s.
Proof.
  induction xs as [|x xs IH]; intros b s; [reflexivity|].
  cbn [length app sub_from]. rewrite IH. cbn [rev].
  now rewrite <- app_assoc.
Qed.
End SubFacts.


(** The whole of a Form A call without [)] in its arguments is one match
    of the substitution pattern, wherever it stands. *)
Lemma call_re_at_timber (tag args b rest : text) (level : ascii) :
  tag <> [] ->
  forallb (is_not rparen) tag = true ->
  level_letter level = true ->
  forallb (is_not rparen) args = true ->
  exists g,
    match_at false call_re b (timber_call tag level args ++ rest)
    = Some (MatchObj (length b) (timber_call tag level args) g, rest).
Proof.
  intros Hne Htag Hlv Hargs.
  destruct tag as [|x tag]; [congruence|]. clear Hne.
  cbn [forallb] in Htag. apply andb_true_iff in Htag as [Hx Htag].
  eexists. unfold match_at.
  match goal with |- rmatch _ _ _ _ _ ?k = _ => set (k0 := k) end.
  unfold timber_call, call_re, L. cbn [rmatch].
  rewrite <- !app_assoc.
  rewrite lit_exact. cbn [app]. rewrite Hx.
  erewrite star_cls_greedy; [reflexivity|exact Htag|reflexivity|].
  rewrite lit_exact. cbn [app]. rewrite Hlv.
  rewrite lit_exact.
  apply star_cls_greedy; [exact Hargs|reflexivity|].
  rewrite lit_exact.
  unfold k0. rewrite (firstn_app_exact (timber_call (x :: tag) level args))
    by reflexivity.
  reflexivity.
Qed.

(** The text matched by the second alternative of the substitution
    pattern: [Log.<level>(<body>)] with no [)] in the body. *)
Definition plain_log_call (level : ascii) (body : text) : text :=
  txt "Log." ++ [level] ++ txt "(" ++ body ++ txt ")".


Lemma call_re_at_log (body b rest : text) (level : ascii) :
  level_letter level = true ->
  forallb (is_not rparen) body = true ->
  exists g,
    match_at false call_re b (plain_log_call level body ++ rest)
    = Some (MatchObj (length b) (plain_log_call level body) g, rest).
Proof.
  intros Hlv Hbody. eexists. unfold match_at.
  match goal with |- rmatch _ _ _ _ _ ?k = _ => set (k0 := k) end.
  unfold plain_log_call, call_re, L. cbn [rmatch].
  rewrite <- !app_assoc.
  match goal with
  | |- match ?t with Some x => Some x | None => ?u end = ?rhs =>
      change (u = rhs)
  end.
  rewrite lit_exact. cbn [app]. rewrite Hlv.
  rewrite lit_exact.
  apply star_cls_greedy; [exact Hbody|reflexivity|].
  rewrite lit_exact.
  unfold k0. rewrite (firstn_app_exact (plain_log_call level body))
    by reflexivity.
  reflexivity.
Qed.

Section SubAtCall.
Variable W : Type.
Variable f : text -> result (text * list W).

(** At a match the function gives the replacement and the substitution
    goes on after the match. *)
Lemma sub_from_at_match (call b rest : text) (n : nat) (g : caps) :
  call <> [] ->
  match_at false call_re b (call ++ rest) = Some (MatchObj n call g, rest) ->
  sub_from false call_re f 0 b (call ++ rest)
  = (let? (rep, ch) := f call in
     let? (out, ch') := sub_from false call_re f 0 (rev call ++ b) rest in
     Ok (rep ++ out, ch ++ ch'))%res.
Proof.
  intros Hne Hm. destruct call as [|y mt]; [congruence|].
  cbn [app sub_from] in *. rewrite Hm.
  rewrite sub_from_skip. cbn [rev]. now rewrite <- app_assoc.
Qed.
End SubAtCall.

Lemma lstrip_spaces (s : text) : forallb is_space s = true -> lstrip s = [].
Proof.
  induction s as [|x s IH]; intro H; [reflexivity|].
  cbn [forallb] in H. apply andb_true_iff in H as [Hx Hs].
  cbn [lstrip]. now rewrite Hx, (IH Hs).
Qed.

Lemma is_blank_spaces (s : text) : forallb is_space s = true -> is_blank s = true.
Proof.
  intro H. unfold is_blank, strip. now rewrite (lstrip_spaces _ H).
Qed.

Lemma log_marker_not_at_space (b s : text) (x : ascii) :
  is_space x = true -> match_at false log_marker_re b (x :: s) = None.
Proof.
  intro Hx. unfold match_at, log_marker_re, L. cbn [rmatch].
  change (txt "Log.") with ("L"%char :: txt "og.").
  cbn [lit chr_eq].
  rewrite !(@space_differs x _ Hx) by reflexivity. reflexivity.
Qed.

Lemma log_marker_found (ws body rest : text) (level : ascii) :
  forallb is_space ws = true ->
  level_letter level = true ->
  re_matches false log_marker_re (ws ++ plain_log_call level body ++ rest)
  = true.
Proof.
  intros Hws Hlv. unfold re_matches, re_search.
  enough (H : forall b, exists m,
               search_from false log_marker_re b
                 (ws ++ plain_log_call level body ++ rest) = Some m).
  { destruct (H []) as [m ->]. reflexivity. }
  induction ws as [|x ws IH]; intro b.
  - eexists. apply search_from_here.
    rewrite app_nil_l.
    unfold match_at, plain_log_call, log_marker_re, L. cbn [rmatch].
    rewrite <- !app_assoc. rewrite lit_exact. cbn [app]. rewrite Hlv.
    rewrite lit_exact. reflexivity.
  - cbn [forallb] in Hws. apply andb_true_iff in Hws as [Hx Hws].
    cbn [app search_from]. rewrite (@log_marker_not_at_space b _ x Hx).
    apply (IH Hws).
Qed.

(** The texts that the substitution pattern matches whole: a Form A call
    or a [Log] call, without [)] inside the argument list. *)
Definition matched_call (call : text) : Prop :=
  (exists tag level args,
      call = timber_call tag level args /\ tag <> [] /\
      forallb (is_not rparen) tag = true /\ level_letter level = true /\
      forallb (is_not rparen) args = true) \/
  (exists level body,
      call = plain_log_call level body /\ level_letter level = true /\
      forallb (is_not rparen) body = true).

(** A line made of white space and one call that is noise gives no line. *)
Lemma noise_line_dropped (c : text) (line_num : nat)
  (indent call trailing : text) :
  forallb is_space indent = true ->
  forallb is_space trailing = true ->
  matched_call call ->
  should_remove_log call = true ->
  process_line c line_num (indent ++ call ++ trailing)
  = Ok (None, [change_line line_num (txt "REMOVED unnecessary log")]).
Proof.
  intros Hin Htr Hcall Hnoise.
  assert (Hcand : is_candidate (indent ++ call ++ trailing) = true).
  { unfold is_candidate.
    destruct Hcall as [(tag & level & args & -> & _)
                      |(level & body & -> & Hlv & _)].
    - unfold timber_call.
      change (txt "Timber.tag(") with (txt "Timber.tag" ++ txt "(").
      rewrite <- !app_assoc. now rewrite contains_middle.
    - rewrite log_marker_found by assumption. apply orb_true_r. }
  assert (Hm : exists n g y mt,
             call = y :: mt /\
             match_at false call_re (rev indent ++ []) (call ++ trailing)
             = Some (MatchObj n call g, trailing)).
  { destruct Hcall as [(tag & level & args & -> & Hne & Htag & Hlv & Hargs)
                      |(level & body & -> & Hlv & Hbody)].
    - destruct (@call_re_at_timber tag args (rev indent ++ []) trailing level
                  Hne Htag Hlv Hargs) as [g Hg].
      eexists _, g, _, _. split; [reflexivity|exact Hg].
    - destruct (@call_re_at_log body (rev indent ++ []) trailing level
                  Hlv Hbody) as [g Hg].
      eexists _, g, _, _. split; [reflexivity|exact Hg]. }
  destruct Hm as (n & g & y & mt & Hy & Hm).
  unfold process_line. rewrite Hcand. unfold re_sub.
  rewrite sub_from_spaces by exact Hin.
  rewrite (@sub_from_at_match _ _ call _ trailing n g)
    by (congruence || exact Hm).
  unfold convert_log_call at 1. rewrite Hnoise. cbn [rbind].
  rewrite sub_from_only_spaces by exact Htr. cbn [rbind app].
  rewrite is_blank_spaces by (rewrite forallb_app, Hin, Htr; reflexivity).
  reflexivity.
Qed.

(** A line without a newline is one line of the text. *)
Lemma split_on_line (l : text) :
  forallb is_dot l = true -> split_on nl l = [l].
Proof.
  induction l as [|x l IH]; intro H; [reflexivity|].
  cbn [forallb] in H. apply andb_true_iff in H as [Hx Hl].
  cbn [split_on]. unfold is_dot in Hx. apply negb_true_iff in Hx.
  rewrite Hx, (IH Hl). reflexivity.
Qed.

Lemma split_on_line_app (l s : text) :
  forallb is_dot l = true ->
  split_on nl (l ++ nl :: s) = l :: split_on nl s.
Proof.
  induction l as [|x l IH]; intro H.
  - cbn [app split_on]. now rewrite ascii_eqb_refl.
  - cbn [forallb] in H. apply andb_true_iff in H as [Hx Hl].
    cbn [app split_on]. unfold is_dot in Hx. apply negb_true_iff in Hx.
    rewrite Hx, (IH Hl). reflexivity.
Qed.

(** Splitting the joined lines gives the lines back. *)
Lemma split_on_join (ls : list text) :
  ls <> [] ->
  (forall l, In l ls -> forallb is_dot l = true) ->
  split_on nl (join [nl] ls) = ls.
Proof.
  induction ls as [|l ls IH]; intros Hne H; [congruence|].
  destruct ls as [|l2 ls].
  - cbn [join]. apply split_on_line. apply H. now left.
  - change (join [nl] (l :: l2 :: ls)) with (l ++ nl :: join [nl] (l2 :: ls)).
    rewrite split_on_line_app by (apply H; now left).
    rewrite IH; [reflexivity|discriminate|].
    intros l' Hl'. apply H. now right.
Qed.

(** C5.  In a text of lines, a line that the substitution leaves blank
    is not in what [process_content] puts back: the new text is the
    lines made from those before it, directly followed by the lines made
    from those after it, joined by newlines, and the entries logged for
    the line stand between theirs.  So it is for a line made of white
    space and one matched call whose text matches a noise signature:
    [convert_log_call] replaces the call by the empty text, and the only
    trace of the line is one [REMOVED] entry with its number. *)
Theorem C5_noise_deleted (o : LogConverter) (before after : list text)
  (line : text) (out1 out2 ch1 ch2 : list text) :
  content o = join [nl] (before ++ line :: after) ->
  (forall l, In l (before ++ line :: after) -> forallb is_dot l = true) ->
  process_lines (content o) 1 before = Ok (out1, ch1) ->
  process_lines (content o) (S (S (length before))) after = Ok (out2, ch2) ->
  (forall (full_match : text) (line_num : nat),
      should_remove_log full_match = true ->
      convert_log_call (content o) full_match line_num
      = Ok ([], [change_line line_num (txt "REMOVED unnecessary log")])) /\
  (forall (new_line : text) (ch : list text),
      is_candidate line = true ->
      re_sub false call_re
        (fun m => convert_log_call (content o) m (S (length before))) line
      = Ok (new_line, ch) ->
      is_blank new_line = true ->
      process_content o
      = Ok (add_changes (set_content o (join [nl] (out1 ++ out2)))
              (ch1 ++ ch ++ ch2))) /\
  (forall (indent call trailing : text),
      line = indent ++ call ++ trailing ->
      forallb is_space indent = true ->
      forallb is_space trailing = true ->
      matched_call call ->
      should_remove_log call = true ->
      process_content o
      = Ok (add_changes (set_content o (join [nl] (out1 ++ out2)))
              (ch1 ++ [change_line (S (length before))
                         (txt "REMOVED unnecessary log")] ++ ch2))).
Proof.
  intros Hc Hnl H1 H2.
  assert (Hdrop : forall ch,
             process_line (content o) (S (length before)) line
             = Ok (None, ch) ->
             process_content o
             = Ok (add_changes (set_content o (join [nl] (out1 ++ out2)))
                     (ch1 ++ ch ++ ch2))).
  { intros ch Hl. unfold process_content.
    rewrite Hc at 2. rewrite split_on_join by (destruct before; easy).
    rewrite (@process_lines_drop (content o) before 1 line after
               out1 out2 ch1 ch ch2 H1 Hl H2).
    reflexivity. }
  split; [|split].
  - intros full_match line_num H. unfold convert_log_call. now rewrite H.
  - intros new_line ch Hcand Hs Hb. apply Hdrop.
    unfold process_line. rewrite Hcand, Hs. cbn [rbind]. now rewrite Hb.
  - intros indent call trailing -> Hin Htr Hcall Hnoise. apply Hdrop.
    now apply noise_line_dropped.
Qed.

(** A verbose call between two plain lines: the new text has the two
    plain lines only, one newline between them. *)
Lemma C5_noise_deleted_witness :
  let call := log_call "v" (txt "Tag") (txt " ") (txt "x") in
  let o := set_content (new_converter (txt "/app/A.kt"))
             (txt "val a = 1" ++ [nl] ++ txt "    " ++ call ++ [nl]
              ++ txt "val b = 2") in
  should_remove_log call = true /\
  process_content o
  = Ok (add_changes
          (set_content o (txt "val a = 1" ++ [nl] ++ txt "val b = 2"))
          [change_line 2 (txt "REMOVED unnecessary log")]).
Proof.
  intros call o.
  assert (Hn : should_remove_log call = true) by (vm_compute; reflexivity).
  split; [exact Hn|].
  destruct (@C5_noise_deleted o [txt "val a = 1"] [txt "val b = 2"]
              (txt "    " ++ call ++ [])
              [txt "val a = 1"] [txt "val b = 2"] [] [])
    as (_ & _ & H3).
  - vm_compute. reflexivity.
  - intros l [<-|[<-|[<-|[]]]]; vm_compute; reflexivity.
  - vm_compute. reflexivity.
  - vm_compute. reflexivity.
  - apply (H3 (txt "    ") call []); [reflexivity|reflexivity|reflexivity| |exact Hn].
    right. exists "v"%char, ([dq] ++ txt "Tag" ++ [dq] ++ txt ", x").
    repeat split; vm_compute; reflexivity.
Defined.

(* ================================================================= *)
(** ** [convert] as a function of the tree *)

(** The outcome of [convert] on a tree: the value returned, the object,
    the tree afterwards and the events of the run. *)
Definition convert_outcome (o : LogConverter) (fs : text -> file)
  : bool * LogConverter * (text -> file) * list event :=
  let p := file_path o in
  match file_data (fs p) with
  | None => (false, o, fs, [EvPrintError p (OSError p)])
  | Some c =>
      let o0 := set_content o c in
      if contains LOGGER_DECL c || no_legacy_marker c
      then (false, o0, fs, [EvRead p])
      else
        let o1 := extract_class_info o0 in
        match process_content o1 with
        | Raise e => (false, o1, fs, [EvRead p; EvPrintError p e])
        | Ok o2 =>
            match update_imports o2 with
            | Raise e => (false, o2, fs, [EvRead p; EvPrintError p e])
            | Ok o3 =>
                let o4 := add_logger_instance o3 in
                if file_writable (fs p) then
                  (true, o4, fs_write fs p (content o4),
                   [EvRead p; EvWrite p (content o4)])
                else (false, o4, fs, [EvRead p; EvPrintError p (OSError p)])
            end
        end
  end.

Lemma convert_as_outcome (o : LogConverter) (w : world) :
  convert o w =
  let '(b, o', fs', evs) := convert_outcome o (w_fs w) in
  (Ok b, o', mkWorld fs' (w_trace w ++ evs)).
Proof.
  unfold convert, try_except, convert_body, convert_outcome, bind, read_file,
    get_content, write_file, ret, print_error, log_event.
  destruct (file_data _) as [c|]; [|reflexivity].
  cbn [content set_content w_fs w_trace].
  destruct (contains LOGGER_DECL c); [reflexivity|].
  destruct (no_legacy_marker c); [reflexivity|]. cbn [orb].
  unfold lift. cbn beta iota.
  set (o1 := extract_class_info _).
  assert (P1 : file_path o1 = file_path o) by reflexivity.
  destruct (process_content o1) as [o2|e] eqn:E2.
  2:{ cbn [w_fs w_trace]. rewrite P1, <- app_assoc. reflexivity. }
  pose proof (process_content_path _ E2) as P2.
  destruct (update_imports o2) as [o3|e] eqn:E3.
  2:{ cbn [w_fs w_trace]. rewrite P2, P1, <- app_assoc. reflexivity. }
  pose proof (update_imports_path _ E3) as P3.
  pose proof (add_logger_instance_path o3) as P4.
  cbn [w_fs w_trace].
  assert (P : file_path (add_logger_instance o3) = file_path o)
    by congruence.
  rewrite !P.
  destruct (file_writable _); cbn [w_fs w_trace]; rewrite ?P, <- app_assoc;
    reflexivity.
Qed.


Lemma fs_write_read (fs : text -> file) (p c : text) :
  file_data (fs_write fs p c p) = Some c.
Proof. unfold fs_write. now rewrite text_eqb_refl. Qed.


(** The field injection leaves the canonical declaration in the text
    whenever it finds a class body to insert into. *)
Lemma add_logger_instance_declares (o : LogConverter) (m : rmatch_obj) :
  contains LOGGER_DECL_TYPED (content o) = false ->
  re_search false class_body_re (content o) = Some m ->
  contains LOGGER_DECL (content (add_logger_instance o)) = true.
Proof.
  intros Ht Hm. unfold add_logger_instance. rewrite Ht, Hm, orb_false_r.
  destruct (contains LOGGER_DECL (content o)) eqn:E; [exact E|].
  cbn [content add_changes set_content]. unfold logger_code.
  change (txt "    private val logger = StructuredLogger(")
    with (txt "    " ++ LOGGER_DECL ++ txt "(").
  rewrite <- !app_assoc.
  rewrite (app_assoc (firstn _ _) [nl]), (app_assoc _ (txt "    ")).
  apply contains_middle.
Qed.

(** A class with two calls. *)
Definition two_calls_file : text :=
  txt "import timber.log.Timber" ++ [nl] ++ txt "class Sync {" ++ [nl]
  ++ txt "  fun run() {" ++ [nl] ++ txt "    Timber.tag(TAG).d(msg)" ++ [nl]
  ++ txt "    Timber.tag(TAG).e(err, msg)" ++ [nl] ++ txt "  }" ++ [nl]
  ++ txt "}" ++ [nl].

(* ================================================================= *)
(** ** Counting the canonical strings *)

Lemma starts_with_delim (d : ascii) (n a b : text) :
  forallb (is_not d) n = true ->
  starts_with n (a ++ d :: b) = starts_with n a.
Proof.
  revert a. induction n as [|x n IH]; intros a H; [reflexivity|].
  cbn [forallb] in H. apply andb_true_iff in H as [Hx Hn].
  destruct a as [|y a]; cbn [app starts_with].
  - unfold is_not in Hx. apply negb_true_iff in Hx. now rewrite Hx.
  - now rewrite (IH a Hn).
Qed.

(** Occurrences do not cross a character that the needle does not have. *)
Lemma count_sub_delim (d : ascii) (n a b : text) :
  forallb (is_not d) n = true ->
  count_sub n (a ++ d :: b) = count_sub n a + count_sub n b.
Proof.
  intro H. induction a as [|y a IH].
  - cbn [app count_sub].
    change (d :: b) with ([] ++ d :: b) at 1.
    rewrite starts_with_delim by exact H. lia.
  - cbn [app count_sub]. rewrite IH.
    change (y :: a ++ d :: b) with ((y :: a) ++ d :: b).
    rewrite starts_with_delim by exact H. lia.
Qed.

Lemma starts_with_In (n s : text) (d : ascii) :
  starts_with n s = true -> In d n -> In d s.
Proof.
  revert s. induction n as [|x n IH]; intros [|y s] H Hin; cbn in *;
    try contradiction; try discriminate.
  apply andb_true_iff in H as [Hxy Hn]. apply ascii_eqb_true in Hxy. subst y.
  destruct Hin as [->|Hin]; [now left|right; now apply IH].
Qed.

Lemma is_not_absent (d : ascii) (s : text) :
  forallb (is_not d) s = true -> ~ In d s.
Proof.
  intros H Hin. rewrite forallb_forall in H. specialize (H d Hin).
  unfold is_not in H. now rewrite ascii_eqb_refl in H.
Qed.

(** A needle with a character that the text lacks does not occur. *)
Lemma count_sub_absent (d : ascii) (n s : text) :
  In d n -> forallb (is_not d) s = true -> count_sub n s = 0.
Proof.
  intros Hd. induction s as [|y s IH]; intro H.
  - cbn [count_sub]. destruct (starts_with n []) eqn:E; [|reflexivity].
    exfalso. exact (@starts_with_In n [] d E Hd).
  - cbn [count_sub]. destruct (starts_with n (y :: s)) eqn:E.
    + exfalso. exact (@is_not_absent d (y :: s) H (@starts_with_In n _ d E Hd)).
    + cbn [forallb] in H. apply andb_true_iff in H as [_ H].
      now rewrite (IH H).
Qed.

Lemma count_sub_app_le (n a b : text) :
  n <> [] -> count_sub n a + count_sub n b <= count_sub n (a ++ b).
Proof.
  intro Hn. induction a as [|y a IH].
  - destruct n as [|x n]; [congruence|]. cbn. lia.
  - cbn [app count_sub].
    destruct (starts_with n (y :: a)) eqn:E.
    + change (y :: a ++ b) with ((y :: a) ++ b).
      rewrite (@starts_with_extend n (y :: a) b E). lia.
    + destruct (starts_with n (y :: a ++ b)); lia.
Qed.

Lemma count_sub_split (n s : text) (k : nat) :
  n <> [] ->
  count_sub n (firstn k s) + count_sub n (skipn k s) <= count_sub n s.
Proof.
  intro Hn. rewrite <- (firstn_skipn k s) at 3. now apply count_sub_app_le.
Qed.

(* ================================================================= *)
(** ** Where a match starts *)

Section Reaches.
Variable R : Type.
Implicit Types (k : cont R) (b s : text) (c : caps).

Lemma star_cls_reaches (p : ascii -> bool) s :
  forall b c k (x : R),
    star_cls p b s c k = Some x -> exists b' s' c', k b' s' c' = Some x.
Proof.
  induction s as [|y s IH]; intros b c k x H; cbn [star_cls] in H.
  - now exists b, [], c.
  - destruct (p y); [|now exists b, (y :: s), c].
    destruct (star_cls p (y :: b) s c k) eqn:E.
    + inversion H; subst. exact (IH _ _ _ _ E).
    + now exists b, (y :: s), c.
Qed.

Lemma lit_reaches (ci : bool) (l : text) :
  forall b s c k (x : R),
    lit ci l b s c k = Some x -> exists b' s' c', k b' s' c' = Some x.
Proof.
  induction l as [|y l IH]; intros b s c k x H; cbn [lit] in H.
  - now exists b, s, c.
  - destruct s as [|z s]; [discriminate|].
    destruct (chr_eq ci y z); [|discriminate]. exact (IH _ _ _ _ _ H).
Qed.
End Reaches.

Lemma rmatch_reaches (R : Type) (ci : bool) (r : re) :
  forall (b s : text) (c : caps) (k : cont R) (x : R),
    rmatch ci r b s c k = Some x -> exists b' s' c', k b' s' c' = Some x.
Proof.
  induction r as [|p|l|r1 IH1 r2 IH2|r1 IH1 r2 IH2|p|p|n r1 IH1|];
    intros b s c k x H; cbn [rmatch] in H.
  - now exists b, s, c.
  - destruct s as [|y s]; [discriminate|].
    destruct (p y); [|discriminate]. now exists (y :: b), s, c.
  - exact (lit_reaches _ _ _ _ _ _ H).
  - destruct (IH1 _ _ _ _ _ H) as (b1 & s1 & c1 & H1).
    exact (IH2 _ _ _ _ _ H1).
  - destruct (rmatch ci r1 b s c k) eqn:E.
    + inversion H; subst. exact (IH1 _ _ _ _ _ E).
    + exact (IH2 _ _ _ _ _ H).
  - exact (star_cls_reaches _ _ _ _ _ H).
  - destruct s as [|y s]; [discriminate|].
    destruct (p y); [|discriminate]. exact (star_cls_reaches _ _ _ _ _ H).
  - destruct (IH1 _ _ _ _ _ H) as (b1 & s1 & c1 & H1).
    now exists b1, s1, ((n, firstn (length s - length s1) s) :: c1).
  - destruct b as [|y b]; [now exists [], s, c|].
    destruct (ascii_eqb y nl); [|discriminate]. now exists (y :: b), s, c.
Qed.

Lemma match_at_start (ci : bool) (r : re) (b s : text)
  (m : rmatch_obj) (rest : text) :
  match_at ci r b s = Some (m, rest) -> m_start m = length b.
Proof.
  unfold match_at. intro H.
  destruct (rmatch_reaches _ _ _ _ _ _ H) as (b' & s' & c' & E).
  now inversion E.
Qed.

Lemma search_from_found (ci : bool) (r : re) (s : text) :
  forall (b : text) (m : rmatch_obj) (rest : text),
    search_from ci r b s = Some (m, rest) ->
    exists b' s',
      rev b' ++ s' = rev b ++ s /\ match_at ci r b' s' = Some (m, rest).
Proof.
  induction s as [|y s IH]; intros b m rest H; cbn [search_from] in H.
  - destruct (match_at ci r b []) eqn:E; [|discriminate].
    inversion H; subst. now exists b, [].
  - destruct (match_at ci r b (y :: s)) eqn:E.
    + inversion H; subst. now exists b, (y :: s).
    + destruct (IH _ _ _ H) as (b' & s' & Hcat & Hm).
      exists b', s'. split; [|exact Hm].
      rewrite Hcat. cbn [rev]. now rewrite <- app_assoc.
Qed.

(** The text before a match of [^import ] is empty or ends a line. *)
Lemma import_match_at_line_start (c : text) (m : rmatch_obj) :
  re_search false import_re c = Some m ->
  firstn (m_start m) c = [] \/
  exists pre, firstn (m_start m) c = pre ++ [nl].
Proof.
  unfold re_search. intro H.
  destruct (search_from false import_re [] c) as [[m' rest]|] eqn:E;
    [|discriminate].
  cbn in H. inversion H; subst m'. clear H.
  destruct (search_from_found _ _ _ _ E) as (b' & s' & Hcat & Hm).
  pose proof (match_at_start _ _ _ _ Hm) as Hs.
  cbn [rev app] in Hcat. subst c. rewrite Hs.
  rewrite <- length_rev, firstn_app, Nat.sub_diag, firstn_all.
  cbn [firstn]. rewrite app_nil_r.
  unfold match_at, import_re in Hm. cbn [rmatch] in Hm.
  destruct b' as [|y b']; [now left|].
  destruct (ascii_eqb y nl) eqn:Ey; [|discriminate].
  apply ascii_eqb_true in Ey. subst y.
  right. exists (rev b'). reflexivity.
Qed.

(* ================================================================= *)
(** ** At most one injection of each kind *)

(** The first two steps of [update_imports]. *)
Definition without_legacy_imports (c : text) : result text :=
  (let? c1 := re_delete timber_import_re c in
   re_delete android_import_re c1)%res.

Definition same_names (o o' : LogConverter) : Prop :=
  class_name o' = class_name o /\ feature_tag o' = feature_tag o.

Lemma process_content_names (o o' : LogConverter) :
  process_content o = Ok o' -> same_names o o'.
Proof.
  unfold process_content, rbind.
  destruct (process_lines _ _ _) as [[ls ch]|e]; intro H; inversion H.
  split; reflexivity.
Qed.

Lemma update_imports_names (o o' : LogConverter) :
  update_imports o = Ok o' -> same_names o o'.
Proof.
  unfold update_imports, rbind.
  destruct (re_delete _ _) as [c1|e]; [|discriminate].
  destruct (re_delete _ _) as [c2|e]; [|discriminate].
  destruct (negb _); [destruct (re_search _ _ _)|];
    intro H; inversion H; split; reflexivity.
Qed.

Lemma add_logger_instance_names (o : LogConverter) :
  same_names o (add_logger_instance o).
Proof.
  unfold add_logger_instance.
  destruct (_ || _); [split; reflexivity|].
  destruct (re_search _ _ _); split; reflexivity.
Qed.

Lemma LOGGER_IMPORT_once : count_sub LOGGER_IMPORT LOGGER_IMPORT = 1.
Proof. vm_compute. reflexivity. Qed.

Lemma contains_false_app (n a b : text) :
  contains n (a ++ b) = false ->
  contains n a = false /\ contains n b = false.
Proof.
  intro H. split.
  - destruct (contains n a) eqn:E; [|reflexivity].
    now rewrite (contains_app_l _ _ b E) in H.
  - destruct (contains n b) eqn:E; [|reflexivity].
    now rewrite (contains_app_r _ a _ E) in H.
Qed.

(** The import step leaves at most one canonical import, or as many as
    the text had after the legacy imports were removed. *)
Lemma update_imports_count (o o' : LogConverter) (c2 : text) :
  without_legacy_imports (content o) = Ok c2 ->
  update_imports o = Ok o' ->
  count_sub LOGGER_IMPORT (content o')
  <= Nat.max 1 (count_sub LOGGER_IMPORT c2).
Proof.
  unfold without_legacy_imports, update_imports, rbind.
  destruct (re_delete timber_import_re _) as [c1|e]; [|discriminate].
  intros -> H.
  destruct (contains LOGGER_IMPORT c2) eqn:Hc; cbn [negb] in H.
  { injection H as <-. cbn [content set_content]. lia. }
  destruct (re_search false import_re c2) as [m|] eqn:Hm.
  2:{ injection H as <-. cbn [content set_content]. lia. }
  injection H as <-. cbn [content set_content].
  rewrite <- (firstn_skipn (m_start m) c2) in Hc.
  apply contains_false_app in Hc as [Hpre Hpost].
  apply contains_count in Hpost.
  assert (Hnl : forallb (is_not nl) LOGGER_IMPORT = true) by reflexivity.
  match goal with |- ?x <= _ => assert (E : x = 1) end.
  { destruct (import_match_at_line_start _ Hm) as [E0|[pre E0]];
      rewrite E0 in *.
    - change (count_sub LOGGER_IMPORT
                (LOGGER_IMPORT ++ nl :: skipn (m_start m) c2) = 1).
      rewrite count_sub_delim by exact Hnl.
      rewrite LOGGER_IMPORT_once, Hpost. reflexivity.
    - apply contains_false_app in Hpre as [Hpre _].
      apply contains_count in Hpre.
      rewrite <- app_assoc.
      change (count_sub LOGGER_IMPORT
                (pre ++ nl :: LOGGER_IMPORT ++ nl :: skipn (m_start m) c2)
              = 1).
      rewrite count_sub_delim by exact Hnl.
      rewrite count_sub_delim by exact Hnl.
      rewrite LOGGER_IMPORT_once, Hpre, Hpost. reflexivity. }
  rewrite E. lia.
Qed.

(** The line of the injected field, without the newlines around it. *)
Definition field_head (t : FeatureTag) : text :=
  txt "    private val logger = StructuredLogger(" ++ feature_tag_text t
  ++ txt ", ".

Lemma logger_code_shape (o : LogConverter) (t : FeatureTag) (post : text) :
  feature_tag o = feature_tag_text t ->
  logger_code o ++ post
  = nl :: field_head t ++ dq :: class_name o ++ dq :: txt ")" ++ nl :: post.
Proof.
  intro H. unfold logger_code, field_head. rewrite H.
  rewrite <- !app_assoc. reflexivity.
Qed.

(** Occurrences of a needle without newline and without quote in a text
    with the field code inserted. *)
Lemma count_sub_logger_code (n pre post : text) (o : LogConverter)
  (t : FeatureTag) :
  forallb (is_not nl) n = true ->
  forallb (is_not dq) n = true ->
  feature_tag o = feature_tag_text t ->
  count_sub n (pre ++ logger_code o ++ post)
  = count_sub n pre + count_sub n (field_head t)
    + count_sub n (class_name o) + count_sub n (txt ")") + count_sub n post.
Proof.
  intros Hnl Hdq Ht. rewrite (logger_code_shape _ _ Ht).
  rewrite count_sub_delim by exact Hnl.
  rewrite count_sub_delim by exact Hdq.
  rewrite count_sub_delim by exact Hdq.
  rewrite count_sub_delim by exact Hnl.
  lia.
Qed.

(** The field step adds one canonical declaration at most, and only to a
    text without one; it adds no canonical import. *)
Lemma add_logger_instance_count (o : LogConverter) (t : FeatureTag) :
  feature_tag o = feature_tag_text t ->
  forallb (is_not " ") (class_name o) = true ->
  count_sub LOGGER_DECL (content (add_logger_instance o))
  <= Nat.max 1 (count_sub LOGGER_DECL (content o)) /\
  count_sub LOGGER_IMPORT (content (add_logger_instance o))
  <= count_sub LOGGER_IMPORT (content o).
Proof.
  intros Ht Hcls. unfold add_logger_instance.
  destruct (contains LOGGER_DECL (content o)) eqn:Hd; cbn [orb];
    [split; lia|].
  destruct (contains LOGGER_DECL_TYPED (content o)); [split; lia|].
  destruct (re_search false class_body_re (content o)) as [m|];
    [|split; lia].
  cbn [content add_changes set_content].
  rewrite !(@count_sub_logger_code _ _ _ o t) by (exact Ht || reflexivity).
  rewrite !(@count_sub_absent " "%char _ (class_name o))
    by (exact Hcls || (vm_compute; tauto)).
  assert (Hn1 : LOGGER_DECL <> []) by discriminate.
  assert (Hn2 : LOGGER_IMPORT <> []) by discriminate.
  pose proof (@count_sub_split LOGGER_DECL (content o) (m_end m) Hn1) as S1.
  pose proof (@count_sub_split LOGGER_IMPORT (content o) (m_end m) Hn2) as S2.
  apply contains_count in Hd. rewrite Hd in S1.
  assert (H1 : count_sub LOGGER_DECL (field_head t) = 1)
    by (destruct t; vm_compute; reflexivity).
  assert (H2 : count_sub LOGGER_IMPORT (field_head t) = 0)
    by (destruct t; vm_compute; reflexivity).
  assert (H3 : count_sub LOGGER_DECL (txt ")") = 0) by reflexivity.
  assert (H4 : count_sub LOGGER_IMPORT (txt ")") = 0) by reflexivity.
  rewrite H1, H2, H3, H4. split; lia.
Qed.

(** The steps behind a run of [convert] that returns [True]. *)
Lemma convert_true_steps (p c : text) (w w' : world) (o' : LogConverter) :
  file_text w p = Some c ->
  convert (new_converter p) w = (Ok true, o', w') ->
  exists o2 o3,
    process_content (extract_class_info (set_content (new_converter p) c))
    = Ok o2 /\
    update_imports o2 = Ok o3 /\
    o' = add_logger_instance o3 /\
    file_text w' p = Some (content o').
Proof.
  intros Hr H. rewrite convert_as_outcome in H.
  unfold convert_outcome in H. cbn [file_path new_converter] in H.
  unfold file_text in Hr. rewrite Hr in H.
  destruct (_ || _); [discriminate|].
  destruct (process_content _) as [o2|e]; [|discriminate].
  destruct (update_imports o2) as [o3|e] eqn:E3; [|discriminate].
  destruct (file_writable _); [|discriminate].
  injection H as <- <-. exists o2, o3.
  repeat split; try assumption.
  unfold file_text. cbn [w_fs]. apply fs_write_read.
Qed.

(** C7, as stated, fails: a file with two classes that both hold the
    canonical field declaration is skipped, and its text, unchanged, has
    the declaration twice. *)
Definition two_migrated_classes : text :=
  txt "class A {" ++ [nl]
  ++ txt "    private val logger = StructuredLogger(T, A)" ++ [nl]
  ++ txt "}" ++ [nl] ++ txt "class B {" ++ [nl]
  ++ txt "    private val logger = StructuredLogger(T, B)" ++ [nl]
  ++ txt "}" ++ [nl].

Lemma C7_counterexample :
  let p := txt "/app/ui/Pair.kt" in
  let '(r, _, w') := convert (new_converter p)
                        (single_file p two_migrated_classes) in
  r = Ok false /\
  file_text w' p = Some two_migrated_classes /\
  count_sub LOGGER_DECL two_migrated_classes = 2.
Proof. vm_compute. repeat split. Qed.

(** C7 (amended).  A run of [convert] that rewrites the file adds at most
    one canonical import and at most one canonical field declaration,
    each only to a text that has none: for a declared-type name without a
    space, the output holds at most [max(1, k)] canonical imports, [k]
    their number after the removal of the legacy imports, and at most
    [max(1, k')] canonical field declarations, [k'] their number in the
    text that enters the field injection; the number of call sites plays
    no part. *)
Theorem C7_injection_adds_at_most_one (p c : text) (w w' : world)
  (o' : LogConverter) :
  file_text w p = Some c ->
  convert (new_converter p) w = (Ok true, o', w') ->
  forallb (is_not " ") (class_name o') = true ->
  exists o2 c2 o3,
    process_content (extract_class_info (set_content (new_converter p) c))
    = Ok o2 /\
    without_legacy_imports (content o2) = Ok c2 /\
    update_imports o2 = Ok o3 /\
    file_text w' p = Some (content o') /\
    count_sub LOGGER_IMPORT (content o')
    <= Nat.max 1 (count_sub LOGGER_IMPORT c2) /\
    count_sub LOGGER_DECL (content o')
    <= Nat.max 1 (count_sub LOGGER_DECL (content o3)).
Proof.
  intros Hr H Hcls.
  destruct (convert_true_steps _ _ Hr H) as (o2 & o3 & E2 & E3 & -> & Hw).
  destruct (without_legacy_imports (content o2)) as [c2|e] eqn:Ec.
  2:{ exfalso. revert E3 Ec. unfold update_imports, without_legacy_imports,
        rbind.
      destruct (re_delete timber_import_re _); [|discriminate].
      destruct (re_delete android_import_re _); discriminate. }
  exists o2, c2, o3. repeat (split; [assumption|]).
  destruct (process_content_names _ E2) as [_ T2].
  destruct (update_imports_names _ E3) as [_ T3].
  destruct (add_logger_instance_names o3) as [N4 _].
  assert (Ht : feature_tag o3 = feature_tag_text (classify p)).
  { rewrite T3, T2. reflexivity. }
  rewrite N4 in Hcls.
  destruct (add_logger_instance_count o3 Ht Hcls) as [Hd Hi].
  pose proof (update_imports_count _ Ec E3) as Hu.
  split; [lia|exact Hd].
Qed.

Lemma C7_injection_adds_at_most_one_witness :
  let p := txt "/app/network/Sync.kt" in
  let '(_, o', w') := convert (new_converter p) (single_file p two_calls_file)
  in
  file_text w' p = Some (content o') /\
  count_sub LOGGER_IMPORT (content o') <= 1 /\
  count_sub LOGGER_DECL (content o') <= 1.
Proof.
  intro p.
  destruct (convert (new_converter p) (single_file p two_calls_file))
    as [[r o'] w'] eqn:E.
  assert (Hr : r = Ok true) by (vm_compute in E; now inversion E).
  subst r.
  assert (Hc : forallb (is_not " ") (class_name o') = true)
    by (vm_compute in E; inversion E; subst; vm_compute; reflexivity).
  destruct (@C7_injection_adds_at_most_one p two_calls_file
              (single_file p two_calls_file) w' o')
    as (o2 & c2 & o3 & E2 & Ec & E3 & Hw & Hi & Hd);
    [vm_compute; reflexivity|exact E|exact Hc|].
  split; [exact Hw|].
  vm_compute in E2. injection E2 as <-.
  vm_compute in Ec. injection Ec as <-.
  vm_compute in E3. injection E3 as <-.
  split.
  - eapply Nat.le_trans; [exact Hi|]. vm_compute. lia.
  - eapply Nat.le_trans; [exact Hd|]. vm_compute. lia.
Defined.

(* ================================================================= *)
(** * Further properties *)

Unset Implicit Arguments.

(** ** What the matcher accepts *)

(** The texts a literal matches: itself, or itself up to ASCII case. *)
Definition lit_eq (ci : bool) (l u : text) : Prop :=
  if ci then lower u = lower l else u = l.

(** The texts [u] that a pattern can consume after the text whose
    reverse is [b]. *)
Fixpoint accepts (ci : bool) (r : re) (b u : text) : Prop :=
  match r with
  | Eps => u = []
  | Cls p => exists x, u = [x] /\ p x = true
  | Lit l => lit_eq ci l u
  | Seq r1 r2 =>
      exists u1 u2,
        u = u1 ++ u2 /\ accepts ci r1 b u1 /\ accepts ci r2 (rev u1 ++ b) u2
  | Alt r1 r2 => accepts ci r1 b u \/ accepts ci r2 b u
  | Star p => forallb p u = true
  | Plus p => u <> [] /\ forallb p u = true
  | Grp _ r1 => accepts ci r1 b u
  | Bol => u = [] /\ (b = [] \/ exists b', b = nl :: b')
  end.

Section Sound.
Variable R : Type.
Implicit Types (k : cont R) (b s u : text) (c : caps).

Lemma chr_eq_lit (ci : bool) (x y : ascii) :
  chr_eq ci x y = true -> lit_eq ci [x] [y].
Proof.
  unfold chr_eq, lit_eq, lower. destruct ci; intro H;
    apply ascii_eqb_true in H.
  - cbn [map]. now rewrite H.
  - now subst.
Qed.

Lemma lit_eq_cons (ci : bool) (x y : ascii) (l u : text) :
  chr_eq ci x y = true -> lit_eq ci l u -> lit_eq ci (x :: l) (y :: u).
Proof.
  unfold chr_eq, lit_eq, lower. destruct ci; intros H Hl;
    apply ascii_eqb_true in H.
  - cbn [map]. now rewrite H, Hl.
  - now subst.
Qed.

Lemma lit_sound (ci : bool) (l : text) :
  forall b s c k (x : R),
    lit ci l b s c k = Some x ->
    exists u s', s = u ++ s' /\ lit_eq ci l u /\
                 k (rev u ++ b) s' c = Some x.
Proof.
  induction l as [|y l IH]; intros b s c k x H; cbn [lit] in H.
  - exists [], s. repeat split; [destruct ci; reflexivity|exact H].
  - destruct s as [|z s]; [discriminate|].
    destruct (chr_eq ci y z) eqn:E; [|discriminate].
    destruct (IH _ _ _ _ _ H) as (u & s' & -> & Hl & Hk).
    exists (z :: u), s'. split; [reflexivity|]. split.
    + now apply lit_eq_cons.
    + cbn [rev]. now rewrite <- app_assoc.
Qed.

Lemma star_cls_sound (p : ascii -> bool) s :
  forall b c k (x : R),
    star_cls p b s c k = Some x ->
    exists u s', s = u ++ s' /\ forallb p u = true /\
                 k (rev u ++ b) s' c = Some x.
Proof.
  induction s as [|y s IH]; intros b c k x H; cbn [star_cls] in H.
  - exists [], []. auto.
  - destruct (p y) eqn:Hy; [|exists [], (y :: s); auto].
    destruct (star_cls p (y :: b) s c k) eqn:E.
    + inversion H; subst. destruct (IH _ _ _ _ E) as (u & s' & -> & Hu & Hk).
      exists (y :: u), s'. split; [reflexivity|]. split.
      * cbn. now rewrite Hy, Hu.
      * cbn [rev]. now rewrite <- app_assoc.
    + exists [], (y :: s). auto.
Qed.

End Sound.

(** Whatever the matcher returns, it returns after consuming a text that
    the pattern accepts. *)
Lemma rmatch_sound (R : Type) (ci : bool) (r : re) :
  forall (b s : text) (c : caps) (k : cont R) (x : R),
    rmatch ci r b s c k = Some x ->
    exists u s' c', s = u ++ s' /\ accepts ci r b u /\
                    k (rev u ++ b) s' c' = Some x.
Proof.
  induction r as [|p|l|r1 IH1 r2 IH2|r1 IH1 r2 IH2|p|p|n r1 IH1|];
    intros b s c k x H; cbn [rmatch] in H; cbn [accepts].
  - exists [], s, c. auto.
  - destruct s as [|y s]; [discriminate|].
    destruct (p y) eqn:Hy; [|discriminate].
    exists [y], s, c. repeat split; [now exists y|exact H].
  - destruct (lit_sound R ci l _ _ _ _ _ H) as (u & s' & -> & Hl & Hk).
    now exists u, s', c.
  - destruct (IH1 _ _ _ _ _ H) as (u1 & s1 & c1 & -> & A1 & H1).
    destruct (IH2 _ _ _ _ _ H1) as (u2 & s2 & c2 & -> & A2 & H2).
    exists (u1 ++ u2), s2, c2. split; [now rewrite app_assoc|]. split.
    + now exists u1, u2.
    + now rewrite rev_app_distr, <- app_assoc.
  - destruct (rmatch ci r1 b s c k) eqn:E.
    + inversion H; subst.
      destruct (IH1 _ _ _ _ _ E) as (u & s' & c' & -> & A & Hk).
      exists u, s', c'. auto.
    + destruct (IH2 _ _ _ _ _ H) as (u & s' & c' & -> & A & Hk).
      exists u, s', c'. auto.
  - destruct (star_cls_sound R p _ _ _ _ _ H) as (u & s' & -> & Hu & Hk).
    now exists u, s', c.
  - destruct s as [|y s]; [discriminate|].
    destruct (p y) eqn:Hy; [|discriminate].
    destruct (star_cls_sound R p _ _ _ _ _ H) as (u & s' & -> & Hu & Hk).
    exists (y :: u), s', c. split; [reflexivity|]. split.
    + split; [discriminate|]. cbn. now rewrite Hy, Hu.
    + cbn [rev]. now rewrite <- app_assoc.
  - destruct (IH1 _ _ _ _ _ H) as (u & s' & c' & -> & A & Hk).
    now exists u, s', ((n, firstn (length (u ++ s') - length s') (u ++ s'))
                       :: c').
  - destruct b as [|y b].
    + exists [], s, c. auto.
    + destruct (ascii_eqb y nl) eqn:E; [|discriminate].
      apply ascii_eqb_true in E. subst y.
      exists [], s, c. repeat split; [right; now exists b|exact H].
Qed.

Section Complete.
Variable R : Type.
Implicit Types (k : cont R) (b s u : text) (c : caps).

Lemma lit_complete (ci : bool) (l : text) :
  forall u b s c k,
    lit_eq ci l u -> lit ci l b (u ++ s) c k = k (rev u ++ b) s c.
Proof.
  induction l as [|y l IH]; intros u b s c k H.
  - assert (u = []) as ->.
    { unfold lit_eq in H. destruct ci; [|exact H].
      destruct u; [reflexivity|discriminate]. }
    reflexivity.
  - assert (exists z u', u = z :: u' /\ chr_eq ci y z = true /\
                         lit_eq ci l u') as (z & u' & -> & Hz & Hu).
    { unfold lit_eq, chr_eq, lower in *. destruct ci.
      - destruct u as [|z u']; [discriminate|]. cbn [map] in H.
        injection H as H1 H2. exists z, u'. repeat split; [|exact H2].
        rewrite H1. apply ascii_eqb_refl.
      - subst u. exists y, l. repeat split. apply ascii_eqb_refl. }
    cbn [app lit]. rewrite Hz, (IH u' (z :: b) s c k Hu).
    cbn [rev]. now rewrite <- app_assoc.
Qed.

Lemma star_cls_complete (p : ascii -> bool) (u : text) :
  forall b s c k,
    forallb p u = true ->
    k (rev u ++ b) s c <> None ->
    star_cls p b (u ++ s) c k <> None.
Proof.
  induction u as [|y u IH]; intros b s c k Hu Hk.
  - cbn [app rev] in *. destruct s as [|z s]; cbn [star_cls]; [exact Hk|].
    destruct (p z); [|exact Hk].
    destruct (star_cls p (z :: b) s c k); [discriminate|exact Hk].
  - cbn [forallb] in Hu. apply andb_true_iff in Hu as [Hy Hu].
    cbn [app star_cls]. rewrite Hy.
    assert (H : star_cls p (y :: b) (u ++ s) c k <> None).
    { apply IH; [exact Hu|]. cbn [rev] in Hk. now rewrite <- app_assoc in Hk. }
    destruct (star_cls p (y :: b) (u ++ s) c k); [discriminate|contradiction].
Qed.
End Complete.

(** When the pattern accepts a text and the rest of the match can go on
    after it, the matcher finds a match. *)
Lemma rmatch_complete (R : Type) (ci : bool) (r : re) :
  forall (b u s : text) (c : caps) (k : cont R),
    accepts ci r b u ->
    (forall c', k (rev u ++ b) s c' <> None) ->
    rmatch ci r b (u ++ s) c k <> None.
Proof.
  induction r as [|p|l|r1 IH1 r2 IH2|r1 IH1 r2 IH2|p|p|n r1 IH1|];
    intros b u s c k A Hk; cbn [rmatch]; cbn [accepts] in A.
  - subst u. apply Hk.
  - destruct A as (x & -> & Hx). cbn [app]. rewrite Hx. apply Hk.
  - rewrite (lit_complete R ci l u b s c k A). apply Hk.
  - destruct A as (u1 & u2 & -> & A1 & A2). rewrite <- app_assoc.
    apply IH1; [exact A1|]. intro c1.
    apply IH2; [exact A2|]. intro c2.
    rewrite app_assoc, <- rev_app_distr. apply Hk.
  - destruct (rmatch ci r1 b (u ++ s) c k) eqn:E; [discriminate|].
    destruct A as [A|A].
    + exfalso. exact (IH1 b u s c k A Hk E).
    + now apply IH2.
  - now apply star_cls_complete.
  - destruct A as [Hne Hu]. destruct u as [|y u]; [congruence|].
    cbn [forallb] in Hu. apply andb_true_iff in Hu as [Hy Hu].
    cbn [app]. rewrite Hy. apply star_cls_complete; [exact Hu|].
    cbn [rev] in Hk. rewrite <- app_assoc in Hk. apply Hk.
  - apply IH1; [exact A|]. intro c'. apply Hk.
  - destruct A as [-> [-> | [b' ->]]]; cbn [app]; [apply Hk|].
    rewrite ascii_eqb_refl. apply Hk.
Qed.

(** A search succeeds exactly when some part of the text is accepted. *)
Lemma search_from_complete (ci : bool) (r : re) (a : text) :
  forall (b u z : text),
    accepts ci r (rev a ++ b) u ->
    search_from ci r b (a ++ u ++ z) <> None.
Proof.
  induction a as [|y a IH]; intros b u z A.
  - cbn [app rev] in *.
    assert (H : match_at ci r b (u ++ z) <> None).
    { unfold match_at. apply rmatch_complete; [exact A|]. discriminate. }
    destruct (match_at ci r b (u ++ z)) eqn:E; [|contradiction].
    destruct (u ++ z); cbn [search_from]; rewrite E; discriminate.
  - cbn [app search_from].
    destruct (match_at ci r b (y :: a ++ u ++ z)); [discriminate|].
    apply IH. cbn [rev] in A. now rewrite <- app_assoc in A.
Qed.

Lemma search_from_sound (ci : bool) (r : re) (s : text) :
  forall (b : text) (m : rmatch_obj * text),
    search_from ci r b s = Some m ->
    exists a u z, s = a ++ u ++ z /\ accepts ci r (rev a ++ b) u.
Proof.
  induction s as [|y s IH]; intros b m H; cbn [search_from] in H.
  - destruct (match_at ci r b []) eqn:E; [|discriminate].
    unfold match_at in E.
    destruct (rmatch_sound _ ci r _ _ _ _ _ E) as (u & s' & c' & Hs & A & _).
    exists [], u, s'. auto.
  - destruct (match_at ci r b (y :: s)) eqn:E.
    + unfold match_at in E.
      destruct (rmatch_sound _ ci r _ _ _ _ _ E) as (u & s' & c' & Hs & A & _).
      exists [], u, s'. auto.
    + destruct (IH _ _ H) as (a & u & z & -> & A).
      exists (y :: a), u, z. split; [reflexivity|].
      cbn [rev]. now rewrite <- app_assoc.
Qed.

Lemma re_matches_iff (ci : bool) (r : re) (s : text) :
  re_matches ci r s = true <->
  exists a u z, s = a ++ u ++ z /\ accepts ci r (rev a) u.
Proof.
  unfold re_matches, re_search. split.
  - destruct (search_from ci r [] s) as [m|] eqn:E; [|discriminate].
    intros _. destruct (search_from_sound ci r s [] m E) as (a & u & z & H & A).
    exists a, u, z. now rewrite app_nil_r in A.
  - intros (a & u & z & -> & A).
    pose proof (search_from_complete ci r a [] u z) as H.
    rewrite app_nil_r in H. specialize (H A).
    destruct (search_from ci r [] (a ++ u ++ z)); [reflexivity|contradiction].
Qed.

(* ================================================================= *)
(** ** Which texts are noise *)

Lemma starts_with_iff (n s : text) :
  starts_with n s = true <-> exists z, s = n ++ z.
Proof.
  split.
  - revert s. induction n as [|x n IH]; intros s H; [now exists s|].
    destruct s as [|y s]; cbn [starts_with] in H; [discriminate|].
    apply andb_true_iff in H as [H1 H2]. apply ascii_eqb_true in H1. subst y.
    destruct (IH s H2) as [z ->]. now exists z.
  - intros [z ->]. apply starts_with_app.
Qed.

Lemma contains_iff (n s : text) :
  contains n s = true <-> exists a z, s = a ++ n ++ z.
Proof.
  split.
  - induction s as [|y s IH]; cbn [contains]; intro H.
    + rewrite orb_false_r in H. apply starts_with_iff in H as [z Hz].
      now exists [], z.
    + apply orb_true_iff in H as [H|H].
      * apply starts_with_iff in H as [z Hz]. now exists [], z.
      * destruct (IH H) as (a & z & ->). now exists (y :: a), z.
  - intros (a & z & ->). apply contains_middle.
Qed.

Lemma lower_app (a b : text) : lower (a ++ b) = lower a ++ lower b.
Proof. apply map_app. Qed.

Lemma lower_split (s a' n' z' : text) :
  lower s = a' ++ n' ++ z' ->
  exists a u z, s = a ++ u ++ z /\ lower a = a' /\ lower u = n' /\
                lower z = z'.
Proof.
  unfold lower. intro H.
  apply map_eq_app in H as (a & r & -> & Ha & Hr).
  apply map_eq_app in Hr as (u & z & -> & Hu & Hz).
  now exists a, u, z.
Qed.

(** A literal pattern under IGNORECASE is a containment test on the
    lower-cased texts. *)
Lemma re_matches_lit_ci (l s : text) :
  re_matches true (Lit l) s = true <-> contains (lower l) (lower s) = true.
Proof.
  rewrite re_matches_iff, contains_iff. cbn [accepts]. unfold lit_eq. split.
  - intros (a & u & z & -> & H). exists (lower a), (lower z).
    now rewrite !lower_app, H.
  - intros (a' & z' & H).
    destruct (lower_split _ _ _ _ H) as (a & u & z & -> & _ & Hu & _).
    now exists a, u, z.
Qed.

Lemma re_matches_alt (ci : bool) (r1 r2 : re) (s : text) :
  re_matches ci (Alt r1 r2) s = re_matches ci r1 s || re_matches ci r2 s.
Proof.
  apply eq_true_iff_eq. rewrite orb_true_iff, !re_matches_iff.
  cbn [accepts]. split.
  - intros (a & u & z & H & [A|A]); [left|right]; now exists a, u, z.
  - intros [(a & u & z & H & A)|(a & u & z & H & A)];
      exists a, u, z; auto.
Qed.

(** The words whose presence, in any letter case, makes a call noise. *)
Definition NOISE_WORDS : list text :=
  [txt "[DEBUG]"; txt "println"; txt "Log.v("; txt "TODO"; txt "FIXME";
   txt "Testing"; txt "Debugging"; txt "All keys in";
   txt "Inclusion states JSON"].

(** A decorative separator: twelve [=], anything but a newline, twelve
    [=] again. *)
Definition RULE : text := txt "============".

Definition has_separator (s : text) : Prop :=
  exists a m z, s = a ++ RULE ++ m ++ RULE ++ z /\ forallb is_dot m = true.

Lemma lower_char_equals (x : ascii) :
  lower_char x = "="%char -> x = "="%char.
Proof.
  destruct x as [[] [] [] [] [] [] [] []]; vm_compute; intro H;
    try reflexivity; discriminate H.
Qed.

Lemma lower_is_rule (u : text) : lower u = lower RULE -> u = RULE.
Proof.
  change (lower RULE) with RULE. unfold RULE.
  change (txt "============") with (repeat "="%char 12).
  generalize 12. intro n. revert u.
  induction n as [|n IH]; intros [|x u] H; cbn in H |- *;
    try discriminate; [reflexivity|].
  injection H as H1 H2. apply lower_char_equals in H1. subst x.
  now rewrite (IH u H2).
Qed.

Lemma re_matches_separator (s : text) :
  re_matches true (L "============" >> Star is_dot >> L "============") s
  = true <-> has_separator s.
Proof.
  rewrite re_matches_iff. unfold has_separator, L. cbn [accepts].
  fold RULE. unfold lit_eq. split.
  - intros (a & u & z & -> & u1 & u' & -> & H1 & u2 & u3 & -> & H2 & H3).
    apply lower_is_rule in H1, H3. subst u1 u3.
    exists a, u2, z. split; [|exact H2]. now rewrite <- !app_assoc.
  - intros (a & m & z & -> & Hm).
    exists a, (RULE ++ m ++ RULE), z. split; [now rewrite <- !app_assoc|].
    exists RULE, (m ++ RULE). repeat split.
    exists m, RULE. repeat split. exact Hm.
Qed.

(** [should_remove_log] as a disjunction of containment tests. *)
Lemma should_remove_log_tests (s : text) :
  should_remove_log s = true <->
  has_separator s \/
  contains (lower (txt "[DEBUG]")) (lower s) = true \/
  contains (lower (txt "println")) (lower s) = true \/
  contains (lower (txt "Log.v(")) (lower s) = true \/
  (contains (lower (txt "TODO")) (lower s) = true \/
   contains (lower (txt "FIXME")) (lower s) = true) \/
  (contains (lower (txt "Testing")) (lower s) = true \/
   contains (lower (txt "Debugging")) (lower s) = true) \/
  contains (lower (txt "All keys in")) (lower s) = true \/
  contains (lower (txt "Inclusion states JSON")) (lower s) = true.
Proof.
  unfold should_remove_log, UNNECESSARY_PATTERNS. cbn [existsb].
  rewrite !re_matches_alt, orb_false_r, !orb_true_iff.
  rewrite re_matches_separator. unfold L. rewrite !re_matches_lit_ci.
  reflexivity.
Qed.

(** X1.  A text is noise exactly when its lower-cased form contains the
    lower-cased form of one of the nine noise words, or when it holds a
    decorative separator. *)
Theorem X1_noise_by_containment (s : text) :
  should_remove_log s = true <->
  (exists w, In w NOISE_WORDS /\ contains (lower w) (lower s) = true) \/
  has_separator s.
Proof.
  rewrite should_remove_log_tests.
  unfold NOISE_WORDS. cbn [In]. split.
  - intros [H|[H|[H|[H|[[H|H]|[[H|H]|[H|H]]]]]]];
      [now right|left; eexists; split; [|exact H]; tauto..].
  - intros [(w & Hw & H)|H]; [|now left].
    repeat (destruct Hw as [<-|Hw]; [tauto|]). destruct Hw.
Qed.

Lemma X1_noise_by_containment_witness :
  should_remove_log (txt "Log.d(TAG, fixme later)") = true.
Proof.
  apply (proj2 (X1_noise_by_containment (txt "Log.d(TAG, fixme later)"))).
  left. exists (txt "FIXME").
  split; [unfold NOISE_WORDS; cbn [In]; tauto | reflexivity].
Defined.

(** X2.  A line made of white space and one [Log.v] call is dropped,
    whatever the call's arguments (without a closing parenthesis, as the
    substitution pattern takes them): the call text itself holds the
    noise word [Log.v(]. *)
Theorem X2_verbose_log_dropped (c : text) (line_num : nat)
  (indent body trailing : text) :
  forallb is_space indent = true ->
  forallb is_space trailing = true ->
  forallb (is_not rparen) body = true ->
  should_remove_log (plain_log_call "v" body) = true /\
  process_line c line_num (indent ++ plain_log_call "v" body ++ trailing)
  = Ok (None, [change_line line_num (txt "REMOVED unnecessary log")]).
Proof.
  intros Hi Ht Hb.
  assert (Hn : should_remove_log (plain_log_call "v" body) = true).
  { apply should_remove_log_tests. right. right. right. left.
    apply contains_iff. exists [], (lower (body ++ txt ")")).
    unfold plain_log_call. rewrite !lower_app. reflexivity. }
  split; [exact Hn|].
  apply noise_line_dropped; try assumption.
  right. exists "v"%char, body. auto.
Qed.

Lemma X2_verbose_log_dropped_witness :
  should_remove_log (plain_log_call "v" (txt "TAG, state.dump(")) = true /\
  process_line [] 3
    (txt "    " ++ plain_log_call "v" (txt "TAG, state.dump(") ++ [])
  = Ok (None, [change_line 3 (txt "REMOVED unnecessary log")]).
Proof.
  apply (X2_verbose_log_dropped [] 3 (txt "    ") (txt "TAG, state.dump(") []);
    reflexivity.
Defined.

(* ================================================================= *)
(** ** Calls of the other levels *)

Lemma level_letter_cases (level : ascii) :
  level_letter level = true ->
  level = "d"%char \/ level = "e"%char \/ level = "i"%char \/
  level = "w"%char \/ level = "v"%char.
Proof.
  unfold level_letter, one_of. cbn [txt list_ascii_of_string existsb].
  rewrite orb_false_r, !orb_true_iff.
  intros [H|[H|[H|[H|H]]]]; apply ascii_eqb_true in H; tauto.
Qed.

(** The level table, for the letters that are not [e]. *)
Definition plain_levels : list (ascii * text) :=
  [("d"%char, txt "debug"); ("i"%char, txt "info"); ("w"%char, txt "warn");
   ("v"%char, txt "debug")].

Lemma level_map_plain (level : ascii) :
  level_letter level = true -> level <> "e"%char ->
  In (level, level_map [level]) plain_levels /\
  text_eqb (level_map [level]) (txt "error") = false.
Proof.
  intros H Hne.
  destruct (level_letter_cases level H) as [->|[->|[->|[->| ->]]]];
    try congruence; (split; [cbn; tauto|reflexivity]).
Qed.

(** X3.  A Form A call of level [d], [i], [w] or [v] that is kept becomes
    [logger.<name>(Q<ctx>Q, <args>)] with the name of the level table
    ([v] gives [debug]) and the argument text as it is: it is never
    split, commas or not. *)
Theorem X3_timber_plain_levels (c : text) (line_num : nat)
  (tag args ctx : text) (level : ascii) :
  tag <> [] ->
  forallb (is_not rparen) tag = true ->
  level_letter level = true ->
  level <> "e"%char ->
  forallb is_dot args = true ->
  should_remove_log (timber_call tag level args) = false ->
  extract_method_name c line_num = Ok ctx ->
  In (level, level_map [level]) plain_levels /\
  convert_log_call c (timber_call tag level args) line_num
  = Ok (logger_call (level_map [level]) ctx args,
        [converted_timber line_num [level] (level_map [level])]).
Proof.
  intros Hne Htag Hlv He Hargs Hnoise Hctx.
  destruct (level_map_plain level Hlv He) as [Hin Hno].
  split; [exact Hin|].
  destruct (@timber_re_search tag args level Hne Htag Hlv Hargs)
    as (m & Hm & H1 & H2).
  unfold convert_log_call. rewrite Hnoise, Hm, H1, H2, Hctx.
  cbn [rbind]. rewrite Hno. reflexivity.
Qed.

Lemma X3_timber_plain_levels_witness :
  In ("v"%char, level_map (txt "v")) plain_levels /\
  convert_log_call [] (timber_call (txt "TAG") "v" (txt "a, b, c")) 1
  = Ok (logger_call (txt "debug") (txt "unknown") (txt "a, b, c"),
        [converted_timber 1 (txt "v") (txt "debug")]).
Proof.
  apply (X3_timber_plain_levels [] 1 (txt "TAG") (txt "a, b, c")
           (txt "unknown") "v"%char);
    try reflexivity; discriminate.
Defined.

(** X4.  A Form B call of level [d], [i] or [w] that is kept and holds no
    Form A call becomes [logger.<name>(Q<ctx>Q, <args>)]: the quoted tag
    and the white space after its comma are dropped and the rest of the
    arguments is kept as it is, commas or not. *)
Theorem X4_log_plain_levels (c : text) (line_num : nat)
  (tag ws args ctx : text) (level : ascii) :
  tag <> [] ->
  forallb (is_not dq) tag = true ->
  level_letter level = true ->
  level <> "e"%char ->
  forallb is_space ws = true ->
  starts_black args = true ->
  forallb is_dot args = true ->
  should_remove_log (log_call level tag ws args) = false ->
  re_search false timber_re (log_call level tag ws args) = None ->
  extract_method_name c line_num = Ok ctx ->
  In (level, level_map [level]) plain_levels /\
  convert_log_call c (log_call level tag ws args) line_num
  = Ok (logger_call (level_map [level]) ctx args,
        [converted_log line_num [level] (level_map [level])]).
Proof.
  intros Hne Htag Hlv He Hws Hblack Hargs Hnoise Hnot Hctx.
  destruct (level_map_plain level Hlv He) as [Hin Hno].
  split; [exact Hin|].
  destruct (@log_re_search level tag ws args Hne Htag Hlv Hws Hblack Hargs)
    as (m & Hm & H1 & H3).
  unfold convert_log_call. rewrite Hnoise, Hnot, Hm, H1, H3, Hctx.
  cbn [rbind]. rewrite Hno. reflexivity.
Qed.

Lemma X4_log_plain_levels_witness :
  In ("w"%char, level_map (txt "w")) plain_levels /\
  convert_log_call []
    (log_call "w" (txt "Sync") (txt "  ") (txt "retry(n, delay)")) 1
  = Ok (logger_call (txt "warn") (txt "unknown") (txt "retry(n, delay)"),
        [converted_log 1 (txt "w") (txt "warn")]).
Proof.
  apply (X4_log_plain_levels [] 1 (txt "Sync") (txt "  ")
           (txt "retry(n, delay)") (txt "unknown") "w"%char);
    try reflexivity; discriminate.
Defined.

(* ================================================================= *)
(** ** A [Log] call whose tag is not a string literal *)

Definition lparen : ascii := "040"%char.

Lemma only_last_delim (d : ascii) (p : text) :
  forall a z : text,
    forallb (is_not d) p = true -> p ++ [d] = a ++ d :: z -> z = [].
Proof.
  induction p as [|x p IH]; intros a z Hp H.
  - destruct a as [|y a]; cbn in H.
    + now injection H.
    + injection H as _ H. now destruct a.
  - cbn [forallb] in Hp. apply andb_true_iff in Hp as [Hx Hp].
    destruct a as [|y a]; cbn [app] in H; injection H as H1 H2.
    + subst x. unfold is_not in Hx. now rewrite ascii_eqb_refl in Hx.
    + exact (IH a z Hp H2).
Qed.

(** A text whose only closing parenthesis is its last character holds no
    Form A call. *)
Lemma timber_re_absent (p : text) :
  forallb (is_not rparen) p = true ->
  re_search false timber_re (p ++ [rparen]) = None.
Proof.
  intro Hp. unfold re_search.
  destruct (search_from false timber_re [] (p ++ [rparen])) as [m|] eqn:E;
    [|reflexivity].
  exfalso. destruct (search_from_sound _ _ _ _ _ E) as (a & u & z & Hs & A).
  unfold timber_re, L in A. cbn [accepts] in A.
  destruct A as (u1 & r1 & -> & _ & u2 & r2 & -> & _ & u3 & r3 & -> & H3 & _).
  unfold lit_eq in H3. subst u3.
  rewrite <- !app_assoc in Hs.
  rewrite (app_assoc a), (app_assoc _ u2) in Hs.
  change (txt ")." ++ r3 ++ z) with (rparen :: "."%char :: r3 ++ z) in Hs.
  now apply only_last_delim in Hs.
Qed.

Lemma count_sub_cons_other (n s : text) (x y : ascii) :
  ascii_eqb x y = false ->
  count_sub (x :: n) (y :: s) = count_sub (x :: n) s.
Proof. intro H. cbn [count_sub starts_with]. now rewrite H. Qed.

(** Without an opening parenthesis followed by a double quote, no part
    of a [Log] call has the shape of a Form B call. *)
Lemma log_re_absent (level : ascii) (body : text) :
  level_letter level = true ->
  contains [lparen; dq] (lparen :: body) = false ->
  re_search false log_re (plain_log_call level body) = None.
Proof.
  intros Hlv Hb. unfold re_search.
  destruct (search_from false log_re [] (plain_log_call level body))
    as [m|] eqn:E; [|reflexivity].
  exfalso. destruct (search_from_sound _ _ _ _ _ E) as (a & u & z & Hs & A).
  unfold log_re, L in A. cbn [accepts] in A.
  destruct A as (u1 & r1 & -> & _ & u2 & r2 & -> & _ & u3 & r3 & -> & H3
                 & u4 & r4 & -> & H4 & _).
  unfold lit_eq in H3, H4. subst u3 u4.
  assert (Hc : contains [lparen; dq] (plain_log_call level body) = true).
  { rewrite Hs. rewrite <- !app_assoc.
    rewrite (app_assoc a), (app_assoc _ u2).
    apply contains_iff. eexists _, _. 
    change (txt "(" ++ [dq] ++ r4 ++ z) with ([lparen; dq] ++ r4 ++ z).
    reflexivity. }
  apply contains_count in Hb.
  assert (Hz : count_sub [lparen; dq] (plain_log_call level body) = 0).
  { unfold plain_log_call.
    change (txt "Log." ++ [level] ++ txt "(" ++ body ++ txt ")")
      with ("L"%char :: "o"%char :: "g"%char :: "."%char :: level
            :: (lparen :: body) ++ rparen :: []).
    rewrite !count_sub_cons_other by reflexivity.
    rewrite count_sub_cons_other.
    - rewrite count_sub_delim by reflexivity. now rewrite Hb.
    - destruct (level_letter_cases level Hlv) as [->|[->|[->|[->| ->]]]];
        reflexivity. }
  apply contains_count in Hz. congruence.
Qed.

Lemma lstrip_black (s : text) :
  (exists y, In y s /\ is_space y = false) -> lstrip s <> [].
Proof.
  induction s as [|x s IH]; intros (y & Hin & Hy); [destruct Hin|].
  cbn [lstrip]. destruct (is_space x) eqn:Hx; [|discriminate].
  apply IH. destruct Hin as [->|Hin]; [congruence|now exists y].
Qed.

Lemma is_blank_black (s : text) (y : ascii) :
  In y s -> is_space y = false -> is_blank s = false.
Proof.
  intros Hin Hy. unfold is_blank, strip, rstrip.
  assert (H1 : lstrip s <> []) by (apply lstrip_black; now exists y).
  destruct (lstrip s) as [|x t] eqn:E; [congruence|].
  assert (Hx : is_space x = false).
  { clear -E. induction s as [|z s IH]; cbn [lstrip] in E; [discriminate|].
    destruct (is_space z) eqn:Hz; [now apply IH|]. now injection E as <- _. }
  assert (H2 : lstrip (rev (x :: t)) <> []).
  { apply lstrip_black. exists x. split; [|exact Hx].
    apply in_rev. rewrite rev_involutive. now left. }
  destruct (lstrip (rev (x :: t))) as [|w t'] eqn:E2; [congruence|].
  cbn [rev]. now destruct (rev t').
Qed.

(** X5.  A [Log] call whose argument list does not open with a string
    literal (no opening parenthesis followed by a double quote, as in
    [Log.d(TAG, msg)]) and that is not noise is no Form B call for the
    rewriter: [convert_log_call] returns it as it is and logs nothing,
    and a line made of white space and such a call is kept verbatim. *)
Theorem X5_unquoted_tag_unchanged (c : text) (line_num : nat)
  (indent body trailing : text) (level : ascii) :
  level_letter level = true ->
  forallb (is_not rparen) body = true ->
  contains [lparen; dq] (lparen :: body) = false ->
  should_remove_log (plain_log_call level body) = false ->
  forallb is_space indent = true ->
  forallb is_space trailing = true ->
  convert_log_call c (plain_log_call level body) line_num
  = Ok (plain_log_call level body, []) /\
  process_line c line_num (indent ++ plain_log_call level body ++ trailing)
  = Ok (Some (indent ++ plain_log_call level body ++ trailing), []).
Proof.
  intros Hlv Hbody Hq Hnoise Hin Htr.
  assert (Hc : convert_log_call c (plain_log_call level body) line_num
               = Ok (plain_log_call level body, [])).
  { unfold convert_log_call. rewrite Hnoise.
    assert (Ht : re_search false timber_re (plain_log_call level body) = None).
    { unfold plain_log_call. rewrite !app_assoc. apply timber_re_absent.
      rewrite !forallb_app, Hbody.
      destruct (level_letter_cases level Hlv) as [->|[->|[->|[->| ->]]]];
        reflexivity. }
    now rewrite Ht, (log_re_absent level body Hlv Hq). }
  split; [exact Hc|].
  unfold process_line, is_candidate.
  rewrite (log_marker_found indent body trailing level Hin Hlv), orb_true_r.
  destruct (@call_re_at_log body (rev indent ++ []) trailing level Hlv Hbody)
    as [g Hg].
  unfold re_sub. rewrite sub_from_spaces by exact Hin.
  rewrite (@sub_from_at_match _ _ (plain_log_call level body) _ trailing _ g)
    by (discriminate || exact Hg).
  rewrite Hc. cbn [rbind].
  rewrite sub_from_only_spaces by exact Htr. cbn [rbind app].
  rewrite (is_blank_black _ "L"%char); [reflexivity| |reflexivity].
  apply in_or_app. right. now left.
Qed.

Lemma X5_unquoted_tag_unchanged_witness :
  let body := txt "TAG, " ++ [dq] ++ txt "saved" ++ [dq] in
  convert_log_call [] (plain_log_call "d" body) 7
  = Ok (plain_log_call "d" body, []) /\
  process_line [] 7 (txt "    " ++ plain_log_call "d" body ++ [])
  = Ok (Some (txt "    " ++ plain_log_call "d" body ++ []), []).
Proof.
  intro body.
  apply (X5_unquoted_tag_unchanged [] 7 (txt "    ") body [] "d"%char);
    reflexivity.
Defined.

(* ================================================================= *)
(** ** [extract_method_name] at the edges *)

Lemma scan_lines_ok (lines : list text) (idx : list nat) :
  (forall i, In i idx -> i < length lines) ->
  exists name, scan_lines lines idx = Ok name.
Proof.
  induction idx as [|i idx IH]; intro H; cbn [scan_lines]; [now eexists|].
  destruct (@nth_error_in_range _ lines i (H i (or_introl eq_refl)))
    as [line ->].
  destruct (re_search false fun_re line); [now eexists|].
  apply IH. intros j Hj. apply H. now right.
Qed.

Lemma range_down_head (start stop : nat) :
  stop < start ->
  range_down start stop = start :: range_down (start - 1) stop.
Proof.
  intro H. rewrite (@range_down_split start stop start) by lia.
  unfold range_down at 1. now rewrite Nat.sub_diag.
Qed.

Lemma extract_method_name_ok (c : text) (line_num : nat) :
  line_num <= length (split_on nl c) ->
  exists name, extract_method_name c line_num = Ok name.
Proof.
  intro H. apply scan_lines_ok. intros i Hi.
  apply range_down_In in Hi. lia.
Qed.

(** X6.  [extract_method_name] raises [IndexError] exactly for a line
    number that is at least 2 and beyond the last line; for the line
    numbers 0 and 1 it answers [unknown] whatever the text. *)
Theorem X6_method_name_errors (c : text) (line_num : nat) :
  (extract_method_name c line_num = Raise IndexError <->
   2 <= line_num /\ length (split_on nl c) < line_num) /\
  (line_num <= 1 -> extract_method_name c line_num = Ok (txt "unknown")) /\
  (line_num <= length (split_on nl c) ->
   exists name, extract_method_name c line_num = Ok name).
Proof.
  assert (Hlow : line_num <= 1 ->
                 extract_method_name c line_num = Ok (txt "unknown")).
  { intro H. unfold extract_method_name, range_down.
    replace (line_num - 1 - Nat.max 0 (line_num - 50)) with 0 by lia.
    reflexivity. }
  pose proof (extract_method_name_ok c line_num) as Hin.
  split; [|split; assumption]. split.
  - intro H.
    destruct (Nat.le_gt_cases line_num 1) as [H1|H1];
      [rewrite (Hlow H1) in H; discriminate|].
    destruct (Nat.le_gt_cases line_num (length (split_on nl c))) as [H2|H2];
      [|lia].
    destruct (Hin H2) as [name Hn]. rewrite Hn in H. discriminate.
  - intros [H1 H2]. unfold extract_method_name.
    rewrite range_down_head by lia. cbn [scan_lines].
    replace (nth_error (split_on nl c) (line_num - 1)) with (@None text);
      [reflexivity|].
    symmetry. apply nth_error_None. lia.
Qed.

Lemma X6_method_name_errors_witness :
  extract_method_name (txt "fun f() {") 1 = Ok (txt "unknown") /\
  extract_method_name (txt "fun f() {") 2 = Raise IndexError.
Proof.
  destruct (X6_method_name_errors (txt "fun f() {") 1) as (_ & H1 & _).
  destruct (X6_method_name_errors (txt "fun f() {") 2) as ([_ H2] & _).
  split; [apply H1; lia|apply H2; vm_compute; lia].
Defined.

Lemma firstn_cons_app (x : ascii) (u r : text) :
  firstn (length (x :: u ++ r) - length r) (x :: u ++ r) = x :: u.
Proof. now apply (firstn_app_exact (x :: u)). Qed.

(** The name that a match of the declaration signature captures. *)
Lemma fun_re_captures_word (s : text) (m : rmatch_obj) :
  re_search false fun_re s = Some m ->
  exists x u, group_text 1 m = x :: u /\ forallb is_word (x :: u) = true.
Proof.
  unfold re_search. intro H.
  destruct (search_from false fun_re [] s) as [[m' rest]|] eqn:E;
    [|discriminate].
  injection H as ->.
  destruct (@search_from_found false fun_re s [] m rest E)
    as (b' & s' & _ & Hm).
  clear E. unfold match_at, fun_re, L in Hm. cbn [rmatch] in Hm.
  apply lit_sound in Hm as (u1 & s1 & -> & _ & Hm).
  destruct s1 as [|x1 s1]; [discriminate|].
  destruct (is_space x1); [|discriminate].
  apply star_cls_sound in Hm as (u2 & s2 & -> & _ & Hm).
  destruct s2 as [|x2 s2]; [discriminate|].
  destruct (is_word x2) eqn:Hx2; [|discriminate].
  apply star_cls_sound in Hm as (u3 & s3 & -> & Hu3 & Hm).
  rewrite firstn_cons_app in Hm.
  apply star_cls_sound in Hm as (u4 & s4 & -> & _ & Hm).
  apply lit_sound in Hm as (u5 & s5 & -> & _ & Hm).
  exists x2, u3. split.
  - injection Hm as <- _. reflexivity.
  - cbn [forallb]. now rewrite Hx2, Hu3.
Qed.

Lemma class_re_captures_word (s : text) (m : rmatch_obj) :
  re_search false class_re s = Some m ->
  exists x u, group_text 1 m = x :: u /\ forallb is_word (x :: u) = true.
Proof.
  unfold re_search. intro H.
  destruct (search_from false class_re [] s) as [[m' rest]|] eqn:E;
    [|discriminate].
  injection H as ->.
  destruct (@search_from_found false class_re s [] m rest E)
    as (b' & s' & _ & Hm).
  clear E. unfold match_at, class_re, L in Hm. cbn [rmatch] in Hm.
  apply lit_sound in Hm as (u1 & s1 & -> & _ & Hm).
  destruct s1 as [|x1 s1]; [discriminate|].
  destruct (is_space x1); [|discriminate].
  apply star_cls_sound in Hm as (u2 & s2 & -> & _ & Hm).
  destruct s2 as [|x2 s2]; [discriminate|].
  destruct (is_word x2) eqn:Hx2; [|discriminate].
  apply star_cls_sound in Hm as (u3 & s3 & -> & Hu3 & Hm).
  rewrite firstn_cons_app in Hm.
  exists x2, u3. split.
  - injection Hm as <- _. reflexivity.
  - cbn [forallb]. now rewrite Hx2, Hu3.
Qed.

Lemma scan_lines_word (lines : list text) (idx : list nat) (name : text) :
  scan_lines lines idx = Ok name ->
  name = txt "unknown" \/
  exists x u, name = x :: u /\ forallb is_word (x :: u) = true.
Proof.
  induction idx as [|i idx IH]; cbn [scan_lines]; intro H.
  - left. now injection H.
  - destruct (nth_error lines i) as [line|]; [|discriminate].
    destruct (re_search false fun_re line) as [m|] eqn:E; [|now apply IH].
    right. injection H as <-. exact (fun_re_captures_word line m E).
Qed.

(** X7.  A context label is the text [unknown] or a non-empty run of
    letters, digits and underscores: it cannot hold a quote, a space or a
    newline, so it never breaks the string literal it is put in. *)
Theorem X7_method_name_is_word (c : text) (line_num : nat) (name : text) :
  extract_method_name c line_num = Ok name ->
  name <> [] /\ forallb is_word name = true /\
  forallb (is_not dq) name = true /\ forallb is_dot name = true.
Proof.
  intro H. unfold extract_method_name in H.
  assert (Hw : name <> [] /\ forallb is_word name = true).
  { destruct (scan_lines_word _ _ _ H) as [->|(x & u & -> & Hw)].
    - split; [discriminate|reflexivity].
    - split; [discriminate|exact Hw]. }
  destruct Hw as [Hne Hw]. repeat split; try assumption.
  - rewrite forallb_forall in *. intros x Hx. specialize (Hw x Hx).
    unfold is_not. destruct (ascii_eqb x dq) eqn:E; [|reflexivity].
    apply ascii_eqb_true in E. subst x. discriminate Hw.
  - rewrite forallb_forall in *. intros x Hx. specialize (Hw x Hx).
    unfold is_dot. destruct (ascii_eqb x nl) eqn:E; [|reflexivity].
    apply ascii_eqb_true in E. subst x. discriminate Hw.
Qed.

Lemma X7_method_name_is_word_witness :
  let c := txt "class A {" ++ [nl] ++ txt "  fun load_2(x: Int) {" in
  extract_method_name c 2 = Ok (txt "load_2") /\
  forallb is_word (txt "load_2") = true.
Proof.
  intro c.
  assert (H : extract_method_name c 2 = Ok (txt "load_2")) by reflexivity.
  split; [exact H|].
  exact (proj1 (proj2 (X7_method_name_is_word c 2 (txt "load_2") H))).
Defined.

Lemma scan_lines_ext (l1 l2 : list text) (idx : list nat) :
  (forall i, In i idx -> nth_error l1 i = nth_error l2 i) ->
  scan_lines l1 idx = scan_lines l2 idx.
Proof.
  induction idx as [|i idx IH]; intro H; [reflexivity|].
  cbn [scan_lines]. rewrite (H i (or_introl eq_refl)).
  destruct (nth_error l2 i) as [line|]; [|reflexivity].
  destruct (re_search false fun_re line); [reflexivity|].
  apply IH. intros j Hj. apply H. now right.
Qed.

(** X8.  The label of a call depends on 49 lines at most: the lines of
    index [line_num - 1] (the call line) down to
    [max(0, line_num - 50) + 1].  Two texts that agree on these lines get
    the same answer, be it a name or the exception. *)
Theorem X8_method_name_window (c c' : text) (line_num : nat) :
  (forall i, Nat.max 0 (line_num - 50) < i <= line_num - 1 ->
             nth_error (split_on nl c) i = nth_error (split_on nl c') i) ->
  extract_method_name c line_num = extract_method_name c' line_num.
Proof.
  intro H. unfold extract_method_name. apply scan_lines_ext.
  intros i Hi. apply range_down_In in Hi. now apply H.
Qed.

Lemma X8_method_name_window_witness :
  extract_method_name
    (txt "fun first() {" ++ [nl] ++ txt "  run()" ++ [nl] ++ txt "}") 2
  = extract_method_name
      (txt "class Other" ++ [nl] ++ txt "  run()") 2.
Proof.
  apply X8_method_name_window. intros i Hi.
  assert (i = 1) as -> by (cbn in Hi; lia). reflexivity.
Defined.

(* ================================================================= *)
(** ** The transformation never raises *)

Lemma split1_some (sep : ascii) (s : text) :
  In sep s -> exists l r, split1 sep s = (l, Some r).
Proof.
  induction s as [|x s IH]; intro H; [destruct H|].
  cbn [split1]. destruct (ascii_eqb x sep) eqn:E; [now eexists _, _|].
  destruct H as [->|H]; [now rewrite ascii_eqb_refl in E|].
  destruct (IH H) as (l & r & ->). now eexists _, _.
Qed.

Lemma count_char_In (sep : ascii) (s : text) :
  (1 <=? count_char sep s) = true -> In sep s.
Proof.
  unfold count_char. intro H. apply Nat.leb_le in H.
  destruct (filter (ascii_eqb sep) s) as [|y f] eqn:E; [cbn in H; lia|].
  assert (Hy : In y (filter (ascii_eqb sep) s)) by (rewrite E; now left).
  apply filter_In in Hy as [Hin Hy]. apply ascii_eqb_true in Hy. now subst.
Qed.

Lemma rsplit1_some (sep : ascii) (s : text) :
  (1 <=? count_char sep s) = true ->
  exists l r, rsplit1 sep s = (l, Some r).
Proof.
  intro H. apply count_char_In in H. unfold rsplit1.
  destruct (split1_some sep (rev s)) as (l & r & ->);
    [now apply -> in_rev|].
  now eexists _, _.
Qed.

Lemma convert_log_call_ok (c full : text) (line_num : nat) :
  line_num <= length (split_on nl c) ->
  exists r, convert_log_call c full line_num = Ok r.
Proof.
  intro H. unfold convert_log_call.
  destruct (should_remove_log full); [now eexists|].
  destruct (extract_method_name_ok c line_num H) as [name Hn].
  destruct (re_search false timber_re full); [|destruct (re_search _ _ _)].
  - rewrite Hn. cbn [rbind]. now eexists.
  - rewrite Hn. cbn [rbind].
    destruct (text_eqb _ _ && _) eqn:E; cbn [rbind]; [|now eexists].
    apply andb_true_iff in E as [_ E].
    destruct (rsplit1_some _ _ E) as (p0 & p1 & ->). cbn [rbind].
    now eexists.
  - now eexists.
Qed.

Lemma sub_from_ok (W : Type) (ci : bool) (r : re)
  (f : text -> result (text * list W)) (s : text) :
  (forall m, exists x, f m = Ok x) ->
  forall (skip : nat) (b : text), exists x, sub_from ci r f skip b s = Ok x.
Proof.
  intro Hf. induction s as [|y s IH]; intros skip b.
  - destruct skip; cbn [sub_from]; [|now eexists].
    destruct (match_at ci r b []) as [[[n [|z mt] g] rest]|]; try now eexists.
    destruct (Hf (z :: mt)) as [[rep ch] ->]. cbn [rbind]. now eexists.
  - destruct skip; cbn [sub_from]; [|apply IH].
    destruct (match_at ci r b (y :: s)) as [[[n [|z mt] g] rest]|].
    + destruct (IH 0 (y :: b)) as [[out ch] ->]. cbn [rbind]. now eexists.
    + destruct (Hf (z :: mt)) as [[rep ch] ->]. cbn [rbind].
      destruct (IH (length mt) (y :: b)) as [[out ch'] ->]. cbn [rbind].
      now eexists.
    + destruct (IH 0 (y :: b)) as [[out ch] ->]. cbn [rbind]. now eexists.
Qed.

Lemma process_line_ok (c line : text) (line_num : nat) :
  line_num <= length (split_on nl c) ->
  exists x, process_line c line_num line = Ok x.
Proof.
  intro H. unfold process_line. destruct (is_candidate line); [|now eexists].
  unfold re_sub.
  destruct (sub_from_ok _ false call_re
              (fun m => convert_log_call c m line_num) line
              (fun m => convert_log_call_ok c m line_num H) 0 [])
    as [[out ch] ->].
  cbn [rbind]. now eexists.
Qed.

Lemma process_lines_ok (c : text) (lines : list text) :
  forall n, n + length lines <= S (length (split_on nl c)) ->
            exists x, process_lines c n lines = Ok x.
Proof.
  induction lines as [|line lines IH]; intros n H; cbn [process_lines];
    [now eexists|].
  cbn [length] in H.
  destruct (process_line_ok c line n) as [[o ch] ->]; [lia|].
  destruct (IH (S n)) as [[ls ch'] ->]; [cbn; lia|].
  cbn [rbind]. now eexists.
Qed.

Lemma re_delete_ok (r : re) (s : text) : exists out, re_delete r s = Ok out.
Proof.
  unfold re_delete, re_sub.
  destruct (sub_from_ok unit false r (fun _ => Ok ([], [])) s
              (fun _ => ex_intro _ _ eq_refl) 0 []) as [[out ch] ->].
  cbn [rbind]. now eexists.
Qed.

Lemma process_content_ok (o : LogConverter) :
  exists o', process_content o = Ok o'.
Proof.
  unfold process_content.
  destruct (process_lines_ok (content o) (split_on nl (content o)) 1)
    as [[ls ch] ->]; [cbn; lia|].
  cbn [rbind]. now eexists.
Qed.

Lemma update_imports_ok (o : LogConverter) :
  exists o', update_imports o = Ok o'.
Proof.
  unfold update_imports.
  destruct (re_delete_ok timber_import_re (content o)) as [c1 ->].
  cbn [rbind].
  destruct (re_delete_ok android_import_re c1) as [c2 ->]. cbn [rbind].
  destruct (negb _); [destruct (re_search _ _ _)|]; now eexists.
Qed.

(** X9.  The line transform and the import fix-up never raise: whatever
    the object holds, [process_content] and [update_imports] return
    normally, and so does [update_imports] on what [process_content]
    returns.  The line numbers handed to [extract_method_name] are those
    of the text's own lines, and the Form B split is only taken when a
    comma is there to split on. *)
Theorem X9_transform_never_raises (o : LogConverter) :
  (exists o', process_content o = Ok o') /\
  (exists o', update_imports o = Ok o') /\
  (exists o2 o3, process_content o = Ok o2 /\ update_imports o2 = Ok o3).
Proof.
  destruct (process_content_ok o) as [o2 H2].
  destruct (update_imports_ok o2) as [o3 H3].
  split; [now exists o2|]. split; [apply update_imports_ok|].
  now exists o2, o3.
Qed.

(** X10.  For a file that can be read and written, [convert] fails on
    nothing: it returns [True] exactly when the text has no canonical
    field declaration and has one of the markers; it then reads once and
    writes once, the text of its object; otherwise it only reads.  No
    error is printed either way. *)
Theorem X10_convert_healthy_file (p c : text) (w : world) :
  file_text w p = Some c ->
  file_writable (w_fs w p) = true ->
  exists (b : bool) (o' : LogConverter) (w' : world),
    convert (new_converter p) w = (Ok b, o', w') /\
    b = negb (contains LOGGER_DECL c || no_legacy_marker c) /\
    w_trace w'
    = w_trace w ++
      (if b then [EvRead p; EvWrite p (content o')] else [EvRead p]) /\
    file_text w' p = Some (if b then content o' else c).
Proof.
  intros Hr Hw. rewrite convert_as_outcome.
  unfold convert_outcome. cbn [file_path new_converter].
  unfold file_text in *. rewrite Hr, Hw.
  destruct (contains LOGGER_DECL c || no_legacy_marker c).
  - eexists false, _, _. split; [reflexivity|]. cbn [w_trace w_fs]. auto.
  - destruct (process_content_ok
                (extract_class_info (set_content (new_converter p) c)))
      as [o2 ->].
    destruct (update_imports_ok o2) as [o3 ->].
    eexists true, _, _. split; [reflexivity|]. cbn [w_trace w_fs].
    repeat split. apply fs_write_read.
Qed.

Lemma X10_convert_healthy_file_witness :
  let p := txt "/app/network/Sync.kt" in
  exists o' w',
    convert (new_converter p) (single_file p two_calls_file)
    = (Ok true, o', w') /\
    w_trace w' = [EvRead p; EvWrite p (content o')] /\
    file_text w' p = Some (content o').
Proof.
  intro p.
  destruct (X10_convert_healthy_file p two_calls_file
              (single_file p two_calls_file) eq_refl eq_refl)
    as (b & o' & w' & Hc & Hb & Ht & Hf).
  assert (b = true) as -> by (rewrite Hb; reflexivity).
  exists o', w'. auto.
Defined.

(* ================================================================= *)
(** ** Texts without a call *)

Lemma split_on_cons (sep : ascii) (s : text) :
  exists l ls, split_on sep s = l :: ls.
Proof.
  induction s as [|x s IH]; cbn [split_on]; [now eexists _, _|].
  destruct (ascii_eqb x sep); [now eexists _, _|].
  destruct IH as (l & ls & ->). now eexists _, _.
Qed.

Lemma join_cons2 (sep l l2 : text) (ls : list text) :
  join sep (l :: l2 :: ls) = l ++ sep ++ join sep (l2 :: ls).
Proof. reflexivity. Qed.

(** Joining the lines of a text gives the text back. *)
Lemma join_split_on (sep : ascii) (s : text) :
  join [sep] (split_on sep s) = s.
Proof.
  induction s as [|x s IH]; [reflexivity|].
  cbn [split_on]. destruct (split_on_cons sep s) as (l & ls & H).
  rewrite H in *. destruct (ascii_eqb x sep) eqn:E.
  - apply ascii_eqb_true in E. subst x.
    rewrite join_cons2, IH. reflexivity.
  - destruct ls as [|l2 ls].
    + cbn [join] in *. now rewrite IH.
    + rewrite join_cons2 in *. rewrite <- IH. reflexivity.
Qed.

Lemma join_part (sep : text) (parts : list text) (line : text) :
  In line parts -> exists a z, join sep parts = a ++ line ++ z.
Proof.
  induction parts as [|l ls IH]; intro H; [destruct H|].
  destruct ls as [|l2 ls].
  - destruct H as [<-|[]]. exists [], []. cbn [join app].
    now rewrite app_nil_r.
  - rewrite join_cons2. destruct H as [<-|H].
    + now exists [], (sep ++ join sep (l2 :: ls)).
    + destruct (IH H) as (a & z & ->). exists (l ++ sep ++ a), z.
      now rewrite <- !app_assoc.
Qed.

Lemma split_on_part (sep : ascii) (s line : text) :
  In line (split_on sep s) -> exists a z, s = a ++ line ++ z.
Proof.
  intro H. destruct (join_part [sep] _ line H) as (a & z & E).
  rewrite join_split_on in E. now exists a, z.
Qed.

Lemma contains_part (n a s z : text) :
  contains n s = true -> contains n (a ++ s ++ z) = true.
Proof.
  intro H. apply contains_app_r. now apply contains_app_l.
Qed.

(** A candidate line has [Timber.tag] or [Log.] in it. *)
Lemma is_candidate_marker (line : text) :
  is_candidate line = true ->
  contains (txt "Timber.tag") line = true \/
  contains (txt "Log.") line = true.
Proof.
  unfold is_candidate. intro H. apply orb_true_iff in H as [H|H];
    [now left|right].
  apply re_matches_iff in H as (a & u & z & -> & A).
  unfold log_marker_re, L in A. cbn [accepts] in A.
  destruct A as (u1 & r1 & -> & H1 & _). unfold lit_eq in H1. subst u1.
  apply contains_iff. exists a, (r1 ++ z). now rewrite <- !app_assoc.
Qed.

Lemma process_lines_plain (c : text) (lines : list text) :
  (forall line, In line lines -> is_candidate line = false) ->
  forall n, process_lines c n lines = Ok (lines, []).
Proof.
  induction lines as [|line lines IH]; intros H n; [reflexivity|].
  cbn [process_lines]. unfold process_line.
  rewrite (H line (or_introl eq_refl)). cbn [rbind].
  rewrite IH by (intros l Hl; apply H; now right). reflexivity.
Qed.

(** X11.  [process_content] leaves an object as it is, text and change
    log, when the text has neither [Timber.tag] nor [Log.] in it:
    splitting at the newlines and joining again gives the text back, and
    no line goes through the substitution. *)
Theorem X11_process_content_identity (o : LogConverter) :
  contains (txt "Timber.tag") (content o) = false ->
  contains (txt "Log.") (content o) = false ->
  process_content o = Ok o.
Proof.
  intros Ht Hl. unfold process_content.
  rewrite process_lines_plain.
  - cbn [rbind]. rewrite join_split_on. destruct o. unfold add_changes,
      set_content. cbn. now rewrite app_nil_r.
  - intros line Hin. destruct (is_candidate line) eqn:E; [|reflexivity].
    exfalso. destruct (split_on_part nl _ _ Hin) as (a & z & Hs).
    destruct (is_candidate_marker line E) as [H|H];
      apply (contains_part _ a _ z) in H; rewrite <- Hs in H; congruence.
Qed.

Lemma X11_process_content_identity_witness :
  let o := set_content (new_converter (txt "/app/A.kt"))
             (txt "import a.B" ++ [nl] ++ [nl] ++ txt "class A { Timber.i(1) }"
              ++ [nl]) in
  process_content o = Ok o.
Proof.
  intro o. apply X11_process_content_identity; reflexivity.
Defined.

(* ================================================================= *)
(** ** Matches, leftmost first *)

Lemma match_at_sound (ci : bool) (r : re) (b s : text)
  (m : rmatch_obj) (rest : text) :
  match_at ci r b s = Some (m, rest) ->
  s = m_text m ++ rest /\ accepts ci r b (m_text m) /\
  m_start m = length b.
Proof.
  unfold match_at. intro H.
  destruct (rmatch_sound _ ci r _ _ _ _ _ H) as (u & s' & c' & -> & A & E).
  injection E as <- <-. cbn [m_text m_start].
  rewrite (firstn_app_exact u s') by reflexivity. auto.
Qed.

Lemma match_at_complete (ci : bool) (r : re) (b u z : text) :
  accepts ci r b u -> match_at ci r b (u ++ z) <> None.
Proof.
  intro A. unfold match_at. apply rmatch_complete; [exact A|]. discriminate.
Qed.

(** No position before the one that a search returns has a match. *)
Lemma search_from_first (ci : bool) (r : re) (s : text) :
  forall (b : text) (m : rmatch_obj) (rest : text),
    search_from ci r b s = Some (m, rest) ->
    forall a s', s = a ++ s' -> length a + length b < m_start m ->
                 match_at ci r (rev a ++ b) s' = None.
Proof.
  induction s as [|y s IH]; intros b m rest H a s' Hs Hlt;
    cbn [search_from] in H.
  - destruct (match_at ci r b []) as [[m1 r1]|] eqn:E; [|discriminate].
    injection H as -> ->. apply match_at_sound in E as (_ & _ & E). lia.
  - destruct (match_at ci r b (y :: s)) as [[m1 r1]|] eqn:E.
    + injection H as -> ->. apply match_at_sound in E as (_ & _ & E). lia.
    + destruct a as [|x a]; cbn [app] in Hs.
      * subst s'. exact E.
      * injection Hs as <- ->. cbn [rev]. rewrite <- app_assoc.
        apply (IH (y :: b) m rest H a s' eq_refl). cbn [length] in *. lia.
Qed.

(** What a successful search gives: the text before the match, the match
    and the rest, with no match starting earlier. *)
Lemma re_search_sound (ci : bool) (r : re) (s : text) (m : rmatch_obj) :
  re_search ci r s = Some m ->
  exists rest,
    s = firstn (m_start m) s ++ m_text m ++ rest /\
    length (firstn (m_start m) s) = m_start m /\
    skipn (m_start m) s = m_text m ++ rest /\
    accepts ci r (rev (firstn (m_start m) s)) (m_text m) /\
    (forall a u z, s = a ++ u ++ z -> accepts ci r (rev a) u ->
                   m_start m <= length a).
Proof.
  unfold re_search. intro H.
  destruct (search_from ci r [] s) as [[m' rest]|] eqn:E; [|discriminate].
  injection H as ->.
  destruct (@search_from_found ci r s [] m rest E) as (b' & s' & Hcat & Hm).
  cbn [rev app] in Hcat.
  destruct (match_at_sound _ _ _ _ _ _ Hm) as (Hs' & A & Hst).
  assert (Hf : firstn (m_start m) s = rev b').
  { rewrite <- Hcat, Hst, <- length_rev.
    rewrite firstn_app, Nat.sub_diag, firstn_all. cbn. apply app_nil_r. }
  assert (Hk : skipn (m_start m) s = s').
  { rewrite <- Hcat, Hst, <- length_rev.
    rewrite skipn_app, Nat.sub_diag, skipn_all. reflexivity. }
  exists rest. rewrite Hf, Hk, rev_involutive. repeat split.
  - now rewrite <- Hcat, Hs'.
  - now rewrite length_rev.
  - exact Hs'.
  - exact A.
  - intros a u z Hs Ha.
    destruct (Nat.le_gt_cases (m_start m) (length a)) as [Hle|Hgt];
      [exact Hle|exfalso].
    pose proof (search_from_first ci r s [] m rest E a (u ++ z) Hs) as Hn.
    cbn [length] in Hn. rewrite Nat.add_0_r, app_nil_r in Hn.
    exact (match_at_complete ci r (rev a) u z Ha (Hn Hgt)).
Qed.

(* ================================================================= *)
(** ** The import fix-up *)

Lemma sub_from_no_match (W : Type) (ci : bool) (r : re)
  (f : text -> result (text * list W)) (s : text) :
  forall b,
    (forall a s', s = a ++ s' -> match_at ci r (rev a ++ b) s' = None) ->
    sub_from ci r f 0 b s = Ok (s, []).
Proof.
  induction s as [|y s IH]; intros b H; cbn [sub_from].
  - pose proof (H [] [] eq_refl) as H0. cbn [rev app] in H0.
    now rewrite H0.
  - pose proof (H [] (y :: s) eq_refl) as H0. cbn [rev app] in H0.
    rewrite H0, (IH (y :: b)); [reflexivity|].
    intros a s' ->. specialize (H (y :: a) s' eq_refl).
    cbn [rev] in H. now rewrite <- app_assoc in H.
Qed.

(** A pattern that only accepts texts starting with [l] matches nowhere
    in a text without [l]. *)
Lemma no_match_without (ci : bool) (r : re) (l s : text) :
  (forall b u, accepts ci r b u -> exists v, u = l ++ v) ->
  contains l s = false ->
  forall b a s', s = a ++ s' -> match_at ci r (rev a ++ b) s' = None.
Proof.
  intros Hr Hc b a s' ->.
  destruct (match_at ci r (rev a ++ b) s') as [[m rest]|] eqn:E;
    [|reflexivity].
  exfalso. apply match_at_sound in E as (-> & A & _).
  destruct (Hr _ _ A) as [v Hv]. rewrite Hv in Hc.
  rewrite <- app_assoc in Hc.
  now rewrite contains_middle in Hc.
Qed.

Lemma re_delete_without (l1 l2 s : text) :
  contains l1 s = false -> re_delete (Lit l1 >> Lit l2) s = Ok s.
Proof.
  intro H. unfold re_delete, re_sub. rewrite sub_from_no_match; [reflexivity|].
  apply (no_match_without false _ l1); [|exact H].
  intros b u A. cbn [accepts] in A. destruct A as (u1 & u2 & -> & H1 & _).
  unfold lit_eq in H1. subst u1. now exists u2.
Qed.

Lemma import_re_accepts (b u : text) :
  accepts false import_re b u <->
  u = txt "import " /\ (b = [] \/ exists b', b = nl :: b').
Proof.
  unfold import_re, L. cbn [accepts]. unfold lit_eq. split.
  - intros (u1 & u2 & -> & [-> Hb] & ->). auto.
  - intros [-> Hb]. exists [], (txt "import "). auto.
Qed.

(** X12.  A text without [import ] in it goes through [update_imports]
    unchanged: there is no legacy import to remove, and without an import
    line to put it before, the canonical import is not added. *)
Theorem X12_no_import_no_insertion (o : LogConverter) :
  contains (txt "import ") (content o) = false ->
  update_imports o = Ok o.
Proof.
  intro H. unfold update_imports, timber_import_re, android_import_re, L.
  change (txt "import timber.log.Timber")
    with (txt "import " ++ txt "timber.log.Timber").
  change (txt "import android.util.Log")
    with (txt "import " ++ txt "android.util.Log").
  rewrite re_delete_without by (apply contains_prefix; exact H).
  cbn [rbind].
  rewrite re_delete_without by (apply contains_prefix; exact H).
  cbn [rbind].
  assert (Hs : re_search false import_re (content o) = None).
  { destruct (re_search false import_re (content o)) as [m|] eqn:E;
      [|reflexivity].
    exfalso. destruct (re_search_sound _ _ _ _ E) as (rest & Hs & _ & _ & A & _).
    apply import_re_accepts in A as [Hu _]. rewrite Hu in Hs.
    rewrite Hs, contains_middle in H. discriminate. }
  rewrite Hs. destruct o. unfold set_content. cbn.
  destruct (negb _); reflexivity.
Qed.

Lemma X12_no_import_no_insertion_witness :
  let o := set_content (new_converter (txt "/app/A.kt"))
             (txt "package a" ++ [nl] ++ txt "class A { }") in
  update_imports o = Ok o.
Proof. intro o. apply X12_no_import_no_insertion. reflexivity. Defined.

(** X13.  When the text left by the removal of the legacy imports has no
    canonical import but has a line that starts with [import ], the
    canonical import is put on a line of its own right before the first
    such line, and nothing else changes. *)
Theorem X13_import_before_first (o o' : LogConverter) (c2 : text) :
  without_legacy_imports (content o) = Ok c2 ->
  update_imports o = Ok o' ->
  contains LOGGER_IMPORT c2 = false ->
  re_matches false import_re c2 = true ->
  exists pre post,
    c2 = pre ++ txt "import " ++ post /\
    content o' = pre ++ LOGGER_IMPORT ++ [nl] ++ txt "import " ++ post /\
    (pre = [] \/ exists pre', pre = pre' ++ [nl]) /\
    (forall a z, c2 = a ++ txt "import " ++ z ->
                 a = [] \/ (exists a', a = a' ++ [nl]) ->
                 length pre <= length a).
Proof.
  unfold without_legacy_imports, update_imports, rbind, re_matches.
  destruct (re_delete timber_import_re _) as [c1|e]; [|discriminate].
  intros -> H Hc Hm. rewrite Hc in H. cbn [negb] in H.
  destruct (re_search false import_re c2) as [m|] eqn:E; [|discriminate].
  injection H as <-. cbn [content set_content].
  destruct (re_search_sound _ _ _ _ E) as (rest & Hs & Hlen & Hk & A & Hfirst).
  apply import_re_accepts in A as [Hu Hb].
  rewrite Hu in *. exists (firstn (m_start m) c2), rest.
  split; [exact Hs|]. split; [now rewrite Hk|]. split.
  - destruct Hb as [Hb|[b' Hb]].
    + left. rewrite <- (rev_involutive (firstn _ _)), Hb. reflexivity.
    + right. exists (rev b').
      rewrite <- (rev_involutive (firstn _ _)), Hb. reflexivity.
  - intros a z Ha Hline. rewrite Hlen. apply (Hfirst a (txt "import ") z Ha).
    apply import_re_accepts. split; [reflexivity|].
    destruct Hline as [->|[a' ->]]; [now left|right].
    exists (rev a'). now rewrite rev_app_distr.
Qed.

Lemma X13_import_before_first_witness :
  let c := txt "package a" ++ [nl] ++ txt "import x.Y" ++ [nl]
           ++ txt "import z.W" ++ [nl] in
  exists o',
    update_imports (set_content (new_converter (txt "/app/A.kt")) c) = Ok o' /\
    content o'
    = txt "package a" ++ [nl] ++ LOGGER_IMPORT ++ [nl] ++ txt "import x.Y"
      ++ [nl] ++ txt "import z.W" ++ [nl].
Proof.
  intro c. set (o := set_content (new_converter (txt "/app/A.kt")) c).
  destruct (update_imports_ok o) as [o' Ho'].
  exists o'. split; [exact Ho'|].
  destruct (X13_import_before_first o o' c eq_refl Ho' eq_refl eq_refl)
    as (pre & post & _ & _ & _ & _).
  vm_compute in Ho'. injection Ho' as <-. reflexivity.
Defined.

(* ================================================================= *)
(** ** The field injection *)

(** X14.  [add_logger_instance] applied twice does what it does once:
    after an insertion the text holds the canonical declaration, and a
    call that inserts nothing changes nothing. *)
Theorem X14_add_logger_idempotent (o : LogConverter) :
  add_logger_instance (add_logger_instance o) = add_logger_instance o.
Proof.
  destruct (contains LOGGER_DECL (content o)
            || contains LOGGER_DECL_TYPED (content o)) eqn:E.
  - unfold add_logger_instance at 2. rewrite E.
    unfold add_logger_instance. now rewrite E.
  - apply orb_false_iff in E as [Hd Ht].
    destruct (re_search false class_body_re (content o)) as [m|] eqn:Hm.
    + pose proof (@add_logger_instance_declares o m Ht Hm) as H.
      unfold add_logger_instance at 1. now rewrite H.
    + unfold add_logger_instance at 2. rewrite Hd, Ht, Hm. cbn [orb].
      unfold add_logger_instance. now rewrite Hd, Ht, Hm.
Qed.

Lemma class_body_re_accepts (b u : text) :
  accepts false class_body_re b u <->
  exists ws name mid,
    u = txt "class" ++ ws ++ name ++ mid ++ txt "{" /\
    ws <> [] /\ forallb is_space ws = true /\
    name <> [] /\ forallb is_word name = true /\
    forallb (is_not lbrace) mid = true.
Proof.
  unfold class_body_re, L. cbn [accepts]. unfold lit_eq. split.
  - intros (u1 & r1 & -> & -> & u2 & r2 & -> & [N2 H2] & u3 & r3 & ->
            & [N3 H3] & u4 & r4 & -> & H4 & ->).
    exists u2, u3, u4. auto 10.
  - intros (ws & name & mid & -> & N2 & H2 & N3 & H3 & H4).
    exists (txt "class"), (ws ++ name ++ mid ++ txt "{"). repeat split.
    exists ws, (name ++ mid ++ txt "{"). repeat split; try assumption.
    exists name, (mid ++ txt "{"). repeat split; try assumption.
    exists mid, (txt "{"). auto.
Qed.

(** X15.  When the text has neither spelling of the logger field and has
    a class header, the field code goes right after the opening brace of
    the first class header: [class], white space, a name, then anything
    without a brace up to the first [{].  The text before and after is
    kept, and one entry is added to the change log. *)
Theorem X15_field_after_class_brace (o : LogConverter) :
  contains LOGGER_DECL (content o) = false ->
  contains LOGGER_DECL_TYPED (content o) = false ->
  re_matches false class_body_re (content o) = true ->
  exists pre ws name mid post,
    content o = pre ++ txt "class" ++ ws ++ name ++ mid ++ txt "{" ++ post /\
    content (add_logger_instance o)
    = pre ++ txt "class" ++ ws ++ name ++ mid ++ txt "{" ++ logger_code o
      ++ post /\
    ws <> [] /\ forallb is_space ws = true /\
    name <> [] /\ forallb is_word name = true /\
    forallb (is_not lbrace) mid = true /\
    (forall a u z, content o = a ++ u ++ z ->
                   accepts false class_body_re (rev a) u ->
                   length pre <= length a) /\
    changes_made (add_logger_instance o)
    = changes_made o ++ [txt "Added logger instance to " ++ class_name o].
Proof.
  intros Hd Ht Hm. unfold re_matches in Hm. unfold add_logger_instance.
  rewrite Hd, Ht. cbn [orb].
  destruct (re_search false class_body_re (content o)) as [m|] eqn:E;
    [|discriminate].
  cbn [content changes_made add_changes set_content].
  destruct (re_search_sound _ _ _ _ E) as (rest & Hs & Hlen & Hk & A & Hfirst).
  apply class_body_re_accepts in A
    as (ws & name & mid & Hu & N2 & H2 & N3 & H3 & H4).
  exists (firstn (m_start m) (content o)), ws, name, mid, rest.
  assert (He : firstn (m_end m) (content o)
               = firstn (m_start m) (content o) ++ m_text m).
  { unfold m_end. rewrite Hs at 1. rewrite <- Hlen at 1.
    rewrite firstn_app_2, firstn_app, Nat.sub_diag, firstn_all.
    cbn. now rewrite app_nil_r. }
  assert (Hr : skipn (m_end m) (content o) = rest).
  { unfold m_end. rewrite Hs at 1. rewrite <- Hlen at 1.
    rewrite skipn_app, Nat.add_comm, Nat.add_sub.
    rewrite (skipn_all2 (firstn _ _)) by lia.
    rewrite skipn_app, Nat.sub_diag, skipn_all. reflexivity. }
  rewrite He, Hr, Hu. rewrite Hu in Hs.
  repeat split; try assumption.
  - rewrite Hs at 1. now rewrite <- !app_assoc.
  - now rewrite <- !app_assoc.
  - intros a u z Ha Hacc. rewrite Hlen. exact (Hfirst a u z Ha Hacc).
Qed.

Lemma X15_field_after_class_brace_witness :
  let o := extract_class_info
             (set_content (new_converter (txt "/app/data/Repo.kt"))
                (txt "open class Repo(val x: Int) : Base() {" ++ [nl]
                 ++ txt "}")) in
  content (add_logger_instance o)
  = txt "open class Repo(val x: Int) : Base() {" ++ logger_code o ++ [nl]
    ++ txt "}".
Proof.
  intro o.
  destruct (X15_field_after_class_brace o eq_refl eq_refl eq_refl)
    as (pre & ws & name & mid & post & _).
  reflexivity.
Defined.

(* ================================================================= *)
(** ** The declared-type name *)

(** X16.  When the text has a class header, the name kept by
    [extract_class_info] is the non-empty run of letters, digits and
    underscores that follows the first [class] and its white space; it
    holds no space and no quote, and does not depend on the path. *)
Theorem X16_class_name_is_word (o : LogConverter) :
  re_matches false class_re (content o) = true ->
  let name := class_name (extract_class_info o) in
  name <> [] /\ forallb is_word name = true /\
  forallb (is_not " ") name = true /\ forallb (is_not dq) name = true /\
  forall p', class_name (extract_class_info
                           (mkConverter p' (content o) (class_name o)
                              (feature_tag o) (changes_made o))) = name.
Proof.
  unfold re_matches. intro H. cbn [extract_class_info class_name content].
  destruct (re_search false class_re (content o)) as [m|] eqn:E;
    [|discriminate].
  destruct (class_re_captures_word _ _ E) as (x & u & -> & Hw).
  repeat split; try discriminate; try exact Hw.
  - rewrite forallb_forall in *. intros y Hy. specialize (Hw y Hy).
    unfold is_not. destruct (ascii_eqb y " ") eqn:Ey; [|reflexivity].
    apply ascii_eqb_true in Ey. subst y. discriminate Hw.
  - rewrite forallb_forall in *. intros y Hy. specialize (Hw y Hy).
    unfold is_not. destruct (ascii_eqb y dq) eqn:Ey; [|reflexivity].
    apply ascii_eqb_true in Ey. subst y. discriminate Hw.
Qed.

Lemma X16_class_name_is_word_witness :
  let o := set_content (new_converter (txt "/app/My File.kt"))
             (txt "data class User_2(val n: Int)") in
  class_name (extract_class_info o) = txt "User_2" /\
  forallb (is_not " ") (class_name (extract_class_info o)) = true.
Proof.
  intro o. split; [reflexivity|].
  exact (proj1 (proj2 (proj2 (X16_class_name_is_word o eq_refl)))).
Defined.

(* ================================================================= *)
(** ** Other files are left alone *)

Definition event_path (e : event) : text :=
  match e with
  | EvRead p => p
  | EvWrite p _ => p
  | EvPrintError p _ => p
  | EvPrintConverted p _ => p
  end.

Lemma text_eqb_other (a b : text) : a <> b -> text_eqb a b = false.
Proof.
  intro H. destruct (text_eqb a b) eqn:E; [|reflexivity].
  now apply text_eqb_true in E.
Qed.

(** A run of [convert] only adds events about its own file and changes
    no other file. *)
Lemma convert_frame (p : text) (w w' : world) (r : result bool)
  (o' : LogConverter) :
  convert (new_converter p) w = (r, o', w') ->
  (exists evs, w_trace w' = w_trace w ++ evs /\
               forall e, In e evs -> event_path e = p) /\
  (forall p', p' <> p -> w_fs w' p' = w_fs w p').
Proof.
  rewrite convert_as_outcome. unfold convert_outcome.
  cbn [file_path new_converter].
  assert (Hev : forall l : list event,
             (forall e, In e l -> event_path e = p) -> forall fs,
             (exists evs, w_trace (mkWorld fs (w_trace w ++ l))
                          = w_trace w ++ evs /\
                          forall e, In e evs -> event_path e = p)).
  { intros l Hl fs. now exists l. }
  destruct (file_data _) as [c|].
  2:{ intro H. injection H as <- <- <-. split; [|reflexivity].
      apply Hev. intros e [<-|[]]. reflexivity. }
  destruct (_ || _).
  { intro H. injection H as <- <- <-. split; [|reflexivity].
    apply Hev. intros e [<-|[]]. reflexivity. }
  destruct (process_content _) as [o2|e2].
  2:{ intro H. injection H as <- <- <-. split; [|reflexivity].
      apply Hev. intros e [<-|[<-|[]]]; reflexivity. }
  destruct (update_imports o2) as [o3|e3].
  2:{ intro H. injection H as <- <- <-. split; [|reflexivity].
      apply Hev. intros e [<-|[<-|[]]]; reflexivity. }
  destruct (file_writable _); intro H; injection H as <- <- <-.
  - split; [apply Hev; intros e [<-|[<-|[]]]; reflexivity|].
    intros p' Hp. cbn [w_fs]. unfold fs_write.
    now rewrite (text_eqb_other _ _ Hp).
  - split; [|reflexivity].
    apply Hev. intros e [<-|[<-|[]]]; reflexivity.
Qed.

Lemma main_loop_keeps (files : list text) :
  forall (cc sc : nat) (w w' : world) (r : result (nat * nat)),
    main_loop files cc sc w = (r, w') ->
    forall p', ~ In p' files -> w_fs w' p' = w_fs w p'.
Proof.
  induction files as [|p rest IH]; intros cc sc w w' r H p' Hp;
    cbn [main_loop] in H.
  - now injection H as <- <-.
  - destruct (convert (new_converter p) w) as [[r1 o1] w1] eqn:E.
    destruct (convert_frame p w w1 r1 o1 E) as [_ Hf1].
    assert (H1 : w_fs w1 p' = w_fs w p').
    { apply Hf1. intros ->. apply Hp. now left. }
    assert (Hr : ~ In p' rest) by (intro; apply Hp; now right).
    destruct r1 as [[|]|e].
    + rewrite (IH _ _ _ _ _ H p' Hr). exact H1.
    + rewrite (IH _ _ _ _ _ H p' Hr). exact H1.
    + now injection H as <- <-.
Qed.

(** X17.  The loop of [main] touches only the files it is given: every
    event it adds is about a listed path, and every other path keeps its
    file. *)
Theorem X17_main_loop_frame (files : list text) :
  forall (cc sc : nat) (w w' : world) (r : result (nat * nat)),
    main_loop files cc sc w = (r, w') ->
    (exists evs, w_trace w' = w_trace w ++ evs /\
                 forall e, In e evs -> In (event_path e) files) /\
    (forall p', ~ In p' files -> w_fs w' p' = w_fs w p').
Proof.
  induction files as [|p rest IH]; intros cc sc w w' r H;
    cbn [main_loop] in H.
  - injection H as <- <-. split; [|reflexivity].
    exists []. split; [now rewrite app_nil_r|intros e []].
  - destruct (convert (new_converter p) w) as [[r1 o1] w1] eqn:E.
    destruct (convert_frame p w w1 r1 o1 E) as [(ev1 & Ht1 & He1) Hf1].
    destruct r1 as [[|]|e].
    + apply IH in H as [(ev2 & Ht2 & He2) Hf2]. split.
      * exists (ev1 ++ EvPrintConverted p (changes_made o1) :: ev2).
        split.
        -- rewrite Ht2. cbn [log_event w_trace]. rewrite Ht1.
           now rewrite <- !app_assoc.
        -- intros e He. apply in_app_or in He as [He|[<-|He]].
           ++ left. symmetry. now apply He1.
           ++ now left.
           ++ right. now apply He2.
      * intros p' Hp. rewrite Hf2 by (intro; apply Hp; now right).
        cbn [log_event w_fs]. apply Hf1. intros ->. apply Hp. now left.
    + apply IH in H as [(ev2 & Ht2 & He2) Hf2]. split.
      * exists (ev1 ++ ev2). split.
        -- now rewrite Ht2, Ht1, <- app_assoc.
        -- intros e He. apply in_app_or in He as [He|He].
           ++ left. symmetry. now apply He1.
           ++ right. now apply He2.
      * intros p' Hp. rewrite Hf2 by (intro; apply Hp; now right).
        apply Hf1. intros ->. apply Hp. now left.
    + injection H as <- <-. split.
      * exists ev1. split; [exact Ht1|].
        intros e0 He. left. symmetry. now apply He1.
      * intros p' Hp. apply Hf1. intros ->. apply Hp. now left.
Qed.

Lemma X17_main_loop_frame_witness :
  let w := single_file (txt "/app/A.kt") two_calls_file in
  w_fs (snd (main_loop [txt "/app/A.kt"] 0 0 w)) (txt "/app/B.kt")
  = w_fs w (txt "/app/B.kt").
Proof.
  intro w.
  destruct (main_loop [txt "/app/A.kt"] 0 0 w) as [r w'] eqn:E.
  destruct (X17_main_loop_frame _ _ _ _ _ _ E) as [_ H].
  apply H. cbn [In]. intros [H1|[]]. discriminate H1.
Defined.

(* ================================================================= *)
(** ** The files found and the run of [main] *)

Lemma tree_induction (P : tree -> Prop) :
  (forall files dirs,
      (forall d sub, In (d, sub) dirs -> P sub) -> P (Dir files dirs)) ->
  forall t, P t.
Proof.
  intro H. fix IH 1. intros [files dirs]. apply H.
  induction dirs as [|[d0 sub0] ds IHd]; intros d sub Hin.
  - destruct Hin.
  - destruct Hin as [E|Hin].
    + injection E as _ <-. apply IH.
    + exact (IHd d sub Hin).
Qed.

(** The number of files of the tree whose name ends in [.kt]. *)
Fixpoint kt_count (t : tree) : nat :=
  match t with
  | Dir files dirs =>
      length (filter (ends_with (txt ".kt")) files)
      + (fix count (ds : list (text * tree)) : nat :=
           match ds with
           | [] => 0
           | (_, sub) :: ds' => kt_count sub + count ds'
           end) dirs
  end.

Lemma ends_with_app (suffix a b : text) :
  ends_with suffix b = true -> ends_with suffix (a ++ b) = true.
Proof.
  unfold ends_with. intro H. rewrite rev_app_distr.
  now apply starts_with_extend.
Qed.

Lemma ends_with_join (suffix a b : text) :
  ends_with suffix b = true -> ends_with suffix (path_join a b) = true.
Proof.
  intro H. unfold path_join. destruct (starts_with (txt "/") b); [exact H|].
  destruct a as [|x a]; [exact H|].
  destruct (ends_with (txt "/") (x :: a)).
  - now apply ends_with_app.
  - rewrite app_assoc. now apply ends_with_app.
Qed.

Lemma find_kotlin_files_facts (t : tree) :
  forall root_dir : text,
    length (find_kotlin_files root_dir t) = kt_count t /\
    forall p, In p (find_kotlin_files root_dir t) ->
              ends_with (txt ".kt") p = true.
Proof.
  induction t as [files dirs IH] using tree_induction. intro root_dir.
  cbn [find_kotlin_files kt_count].
  assert (Hsub : forall ds, (forall d sub, In (d, sub) ds -> In (d, sub) dirs) ->
            length ((fix walk (ds : list (text * tree)) : list text :=
                       match ds with
                       | [] => []
                       | (d, sub) :: ds' =>
                           find_kotlin_files (path_join root_dir d) sub
                           ++ walk ds'
                       end) ds)
            = (fix count (ds : list (text * tree)) : nat :=
                 match ds with
                 | [] => 0
                 | (_, sub) :: ds' => kt_count sub + count ds'
                 end) ds /\
            forall p,
              In p ((fix walk (ds : list (text * tree)) : list text :=
                       match ds with
                       | [] => []
                       | (d, sub) :: ds' =>
                           find_kotlin_files (path_join root_dir d) sub
                           ++ walk ds'
                       end) ds) ->
              ends_with (txt ".kt") p = true).
  { induction ds as [|[d sub] ds IHd]; intro Hin.
    - split; [reflexivity|intros p []].
    - destruct (IH d sub (Hin d sub (or_introl eq_refl))
                  (path_join root_dir d)) as [L1 E1].
      destruct IHd as [L2 E2]; [intros; apply Hin; now right|].
      split.
      + now rewrite length_app, L1, L2.
      + intros p Hp. apply in_app_or in Hp as [Hp|Hp]; auto. }
  destruct (Hsub dirs (fun _ _ H => H)) as [L E]. split.
  - now rewrite length_app, length_map, L.
  - intros p Hp. apply in_app_or in Hp as [Hp|Hp]; [|now apply E].
    apply in_map_iff in Hp as (f & <- & Hf).
    apply filter_In in Hf as [_ Hf]. now apply ends_with_join.
Qed.

(** X18.  [find_kotlin_files] returns one path for each file of the tree
    whose name ends in [.kt], and every path it returns ends in [.kt]:
    a file with another ending is never handed to the converter. *)
Theorem X18_find_kotlin_files (root_dir : text) (t : tree) :
  length (find_kotlin_files root_dir t) = kt_count t /\
  (forall p, In p (find_kotlin_files root_dir t) ->
             ends_with (txt ".kt") p = true) /\
  (forall p, ends_with (txt ".kt") p = false ->
             ~ In p (find_kotlin_files root_dir t)).
Proof.
  destruct (find_kotlin_files_facts t root_dir) as [Hlen Hkt].
  split; [exact Hlen|]. split; [exact Hkt|].
  intros p Hp Hin. apply Hkt in Hin. congruence.
Qed.

(** X19.  With a directory as its first argument, [main] ends with
    status 0 after a summary whose two counts add up to the number of
    [.kt] files of the tree, and no path that does not end in [.kt] has
    its file changed; with no argument, or with a path that is no
    directory, it ends with status 1 and the world as it was. *)
Theorem X19_main_run (prog project_dir : text) (more : list text)
  (disk : text -> option tree) (w : world) :
  (forall t, disk project_dir = Some t ->
     exists cc sc w',
       main (prog :: project_dir :: more) disk w
       = (0, [PrintConverting project_dir; PrintFound (kt_count t);
              PrintSummary cc sc], w') /\
       cc + sc = kt_count t /\
       forall p, ends_with (txt ".kt") p = false -> w_fs w' p = w_fs w p) /\
  (disk project_dir = None ->
   main (prog :: project_dir :: more) disk w
   = (1, [PrintNotFound project_dir], w)) /\
  main [prog] disk w = (1, [PrintUsage], w) /\
  main [] disk w = (1, [PrintUsage], w).
Proof.
  split; [|split; [|split; reflexivity]].
  - intros t Ht. unfold main. rewrite Ht.
    destruct (find_kotlin_files_facts t project_dir) as [Hlen Hkt].
    destruct (main_loop_total (find_kotlin_files project_dir t) 0 0 w)
      as (cc & sc & w' & E & Hsum).
    rewrite E, Hlen. exists cc, sc, w'. split; [reflexivity|].
    split; [lia|].
    intros p Hp. apply (main_loop_keeps _ _ _ _ _ _ E).
    intro Hin. apply Hkt in Hin. congruence.
  - intro Hd. unfold main. now rewrite Hd.
Qed.

(** A tree with a Kotlin file and a text file at the top and one Kotlin
    file in a sub-directory. *)
Definition small_tree : tree :=
  Dir [txt "A.kt"; txt "notes.txt"] [(txt "ui", Dir [txt "B.kt"] [])].

Lemma X19_main_run_witness :
  exists cc sc w',
    main [txt "prog"; txt "/app"] (fun _ => Some small_tree)
      (single_file (txt "/app/A.kt") two_calls_file)
    = (0, [PrintConverting (txt "/app"); PrintFound 2; PrintSummary cc sc],
       w') /\
    cc + sc = 2.
Proof.
  destruct (X19_main_run (txt "prog") (txt "/app") []
              (fun _ => Some small_tree)
              (single_file (txt "/app/A.kt") two_calls_file)) as [H _].
  destruct (H small_tree eq_refl) as (cc & sc & w' & E & Hs & _).
  now exists cc, sc, w'.
Defined.

Lemma X18_find_kotlin_files_witness :
  length (find_kotlin_files (txt "/app") small_tree) = 2 /\
  ~ In (txt "/app/notes.txt") (find_kotlin_files (txt "/app") small_tree).
Proof.
  destruct (X18_find_kotlin_files (txt "/app") small_tree) as (H1 & _ & H3).
  split; [exact H1 | apply H3; reflexivity].
Defined.

(* ================================================================= *)
(** ** A line with one call *)

Lemma matched_call_facts (call : text) :
  matched_call call ->
  call <> [] /\
  (forall indent trailing,
      forallb is_space indent = true ->
      is_candidate (indent ++ call ++ trailing) = true) /\
  (forall b rest, exists n g,
      match_at false call_re b (call ++ rest)
      = Some (MatchObj n call g, rest)).
Proof.
  intros [(tag & level & args & -> & Hne & Htag & Hlv & Hargs)
         |(level & body & -> & Hlv & Hbody)].
  - split; [discriminate|]. split.
    + intros indent trailing _. unfold is_candidate, timber_call.
      change (txt "Timber.tag(") with (txt "Timber.tag" ++ txt "(").
      rewrite <- !app_assoc. now rewrite contains_middle.
    + intros b rest.
      destruct (@call_re_at_timber tag args b rest level Hne Htag Hlv Hargs)
        as [g Hg].
      now exists (length b), g.
  - split; [discriminate|]. split.
    + intros indent trailing Hin. unfold is_candidate.
      rewrite (log_marker_found indent body trailing level Hin Hlv).
      apply orb_true_r.
    + intros b rest.
      destruct (@call_re_at_log body b rest level Hlv Hbody) as [g Hg].
      now exists (length b), g.
Qed.

(** X20.  A line made of white space, one call that the substitution
    pattern matches whole, and white space becomes the same white space
    around what [convert_log_call] answers for the call, with the entries
    it logs; the line is kept when that answer is not blank. *)
Theorem X20_single_call_line (c : text) (line_num : nat)
  (indent call trailing rep : text) (ch : list text) (x : ascii) :
  forallb is_space indent = true ->
  forallb is_space trailing = true ->
  matched_call call ->
  convert_log_call c call line_num = Ok (rep, ch) ->
  In x rep -> is_space x = false ->
  process_line c line_num (indent ++ call ++ trailing)
  = Ok (Some (indent ++ rep ++ trailing), ch).
Proof.
  intros Hin Htr Hcall Hc Hx Hblack.
  destruct (matched_call_facts call Hcall) as (Hne & Hcand & Hm).
  destruct (Hm (rev indent ++ []) trailing) as (n & g & Hg).
  unfold process_line. rewrite (Hcand indent trailing Hin).
  unfold re_sub. rewrite sub_from_spaces by exact Hin.
  rewrite (@sub_from_at_match _ _ call _ trailing n g Hne Hg).
  rewrite Hc. cbn [rbind].
  rewrite sub_from_only_spaces by exact Htr. cbn [rbind].
  rewrite app_nil_r.
  rewrite (is_blank_black _ x); [reflexivity| |exact Hblack].
  apply in_or_app. right. apply in_or_app. now left.
Qed.

Lemma X20_single_call_line_witness :
  process_line [] 1
    (txt "  " ++ timber_call (txt "TAG") "i" (txt "n") ++ txt " ")
  = Ok (Some (txt "  " ++ logger_call (txt "info") (txt "unknown") (txt "n")
              ++ txt " "),
        [converted_timber 1 (txt "i") (txt "info")]).
Proof.
  apply (X20_single_call_line [] 1 (txt "  ")
           (timber_call (txt "TAG") "i" (txt "n")) (txt " ") _ _ "l"%char);
    try reflexivity.
  - left. exists (txt "TAG"), "i"%char, (txt "n").
    repeat split; try reflexivity. discriminate.
  - cbn. tauto.
Defined.

(* ================================================================= *)
(** ** The name taken from the path *)

(** X21.  When the text has no class header, the declared-type name is
    taken from the path: for a path [<dir>/<name>.<ext>], with no slash
    in name and extension and no dot in the extension, both non-empty, it
    is [<name>]. *)
Theorem X21_class_name_from_path (o : LogConverter) (dir name ext : text) :
  re_search false class_re (content o) = None ->
  file_path o = dir ++ txt "/" ++ name ++ txt "." ++ ext ->
  name <> [] -> ext <> [] ->
  forallb (is_not "/") name = true ->
  forallb (is_not "/") ext = true ->
  forallb (is_not ".") ext = true ->
  class_name (extract_class_info o) = name.
Proof.
  intros Hc Hp Hn He Hns Hes Hed.
  cbn [extract_class_info class_name]. rewrite Hc, Hp.
  unfold path_stem.
  assert (Hname : path_name (dir ++ txt "/" ++ name ++ txt "." ++ ext)
                  = name ++ "."%char :: ext).
  { unfold path_name.
    rewrite (app_assoc name), app_assoc, rev_app_distr.
    change (rev (dir ++ txt "/")) with (rev (dir ++ ["/"%char])).
    rewrite (rev_app_distr dir). cbn [rev app].
    rewrite split1_first.
    - cbn [fst]. rewrite rev_involutive. now rewrite <- app_assoc.
    - rewrite forallb_rev, !forallb_app, Hns, Hes. reflexivity. }
  rewrite Hname, (rsplit1_last "."%char name ext Hed).
  destruct name; [congruence|]. destruct ext; [congruence|]. reflexivity.
Qed.

Lemma X21_class_name_from_path_witness :
  class_name
    (extract_class_info
       (set_content (new_converter (txt "/app/util/String.Ext.kt"))
          (txt "fun String.shout() = uppercase()")))
  = txt "String.Ext".
Proof.
  apply (X21_class_name_from_path _ (txt "/app/util") (txt "String.Ext")
           (txt "kt")); try reflexivity; discriminate.
Defined.

(* ================================================================= *)
(** ** Cutting a legacy import out *)

Lemma count_sub_suffix_le (n a s : text) :
  count_sub n s <= count_sub n (a ++ s).
Proof.
  induction a as [|y a IH]; [cbn; lia|]. cbn [app count_sub]. lia.
Qed.

Lemma count_sub_occurs (n a z : text) : 1 <= count_sub n (a ++ n ++ z).
Proof.
  destruct (count_sub n (a ++ n ++ z)) eqn:E; [|lia].
  apply contains_count in E. now rewrite contains_middle in E.
Qed.

Lemma count_sub_two (n a d z post : text) (y : ascii) :
  n ++ post = (y :: d) ++ n ++ z -> 2 <= count_sub n (a ++ n ++ post).
Proof.
  intro H. eapply Nat.le_trans; [|apply count_sub_suffix_le].
  rewrite H. cbn [app count_sub].
  assert (Hs : starts_with n (y :: d ++ n ++ z) = true).
  { change (y :: d ++ n ++ z) with ((y :: d) ++ n ++ z). rewrite <- H.
    apply starts_with_app. }
  rewrite Hs. apply le_n_S. apply count_sub_occurs.
Qed.

(** With a single occurrence of [n], there is one way only to cut the
    text around it. *)
Lemma unique_occurrence (n pre post a z : text) :
  count_sub n (pre ++ n ++ post) = 1 ->
  pre ++ n ++ post = a ++ n ++ z -> a = pre.
Proof.
  intros Hc H. pose proof H as H'.
  apply app_eq_app in H' as [d [[Hp Hz]|[Ha Hz]]].
  - destruct d as [|y d]; [now rewrite app_nil_r in Hp|exfalso].
    pose proof (count_sub_two n a d post z y Hz) as H2.
    rewrite <- H in H2. lia.
  - destruct d as [|y d]; [now rewrite app_nil_r in Ha|exfalso].
    pose proof (count_sub_two n pre d z post y Hz) as H2. lia.
Qed.

Section SubGeneral.
Variable W : Type.
Variables (ci : bool) (r : re) (f : text -> result (text * list W)).

Lemma sub_from_skip_any (xs : text) :
  forall (b s : text),
    sub_from ci r f (length xs) b (xs ++ s)
    = sub_from ci r f 0 (rev xs ++ b) s.
Proof.
  induction xs as [|x xs IH]; intros b s; [reflexivity|].
  cbn [length app sub_from]. rewrite IH. cbn [rev].
  now rewrite <- app_assoc.
Qed.

Lemma sub_from_copy (pre : text) :
  forall (b rest : text),
    (forall a s', pre = a ++ s' -> s' <> [] ->
                  match_at ci r (rev a ++ b) (s' ++ rest) = None) ->
    sub_from ci r f 0 b (pre ++ rest)
    = (let? (out, ch) := sub_from ci r f 0 (rev pre ++ b) rest in
       Ok (pre ++ out, ch))%res.
Proof.
  induction pre as [|y pre IH]; intros b rest H.
  - cbn [app rev]. now rewrite rbind_eta.
  - cbn [app sub_from].
    pose proof (H [] (y :: pre) eq_refl) as H0. cbn [rev app] in H0.
    rewrite H0 by discriminate.
    rewrite (IH (y :: b) rest).
    + cbn [rev]. rewrite <- app_assoc. cbn [app].
      destruct (sub_from ci r f 0 _ rest) as [[out ch]|e]; reflexivity.
    + intros a s' -> Hs. specialize (H (y :: a) s' eq_refl Hs).
      cbn [rev] in H. now rewrite <- app_assoc in H.
Qed.

Lemma sub_from_at (full b rest : text) (n : nat) (g : caps) :
  full <> [] ->
  match_at ci r b (full ++ rest) = Some (MatchObj n full g, rest) ->
  sub_from ci r f 0 b (full ++ rest)
  = (let? (rep, ch) := f full in
     let? (out, ch') := sub_from ci r f 0 (rev full ++ b) rest in
     Ok (rep ++ out, ch ++ ch'))%res.
Proof.
  intros Hne Hm. destruct full as [|y mt]; [congruence|].
  cbn [app sub_from] in *. rewrite Hm.
  rewrite sub_from_skip_any. cbn [rev]. now rewrite <- app_assoc.
Qed.
End SubGeneral.

Lemma two_lits_accepts (l1 l2 b u : text) :
  accepts false (Lit l1 >> Lit l2) b u <-> u = l1 ++ l2.
Proof.
  cbn [accepts]. unfold lit_eq. split.
  - now intros (u1 & u2 & -> & -> & ->).
  - intros ->. now exists l1, l2.
Qed.

(** [re.sub] with the empty replacement cuts the single occurrence of a
    literal out of the text. *)
Lemma re_delete_once (l1 l2 pre post : text) :
  l1 ++ l2 <> [] ->
  count_sub (l1 ++ l2) (pre ++ (l1 ++ l2) ++ post) = 1 ->
  re_delete (Lit l1 >> Lit l2) (pre ++ (l1 ++ l2) ++ post) = Ok (pre ++ post).
Proof.
  intros Hne Hc. unfold re_delete, re_sub.
  rewrite sub_from_copy.
  - assert (Hm : match_at false (Lit l1 >> Lit l2) (rev pre ++ [])
                   ((l1 ++ l2) ++ post)
                 = Some (MatchObj (length (rev pre ++ [])) (l1 ++ l2) [], post)).
    { unfold match_at. cbn [rmatch]. rewrite <- app_assoc.
      rewrite lit_exact, lit_exact. rewrite app_assoc.
      now rewrite (firstn_app_exact (l1 ++ l2) post). }
    rewrite (sub_from_at _ _ _ _ _ _ _ _ _ Hne Hm). cbn [rbind].
    rewrite sub_from_no_match; [reflexivity|].
    intros a s' Hp.
    destruct (match_at false (Lit l1 >> Lit l2)
                (rev a ++ rev (l1 ++ l2) ++ rev pre ++ []) s')
      as [[m rest]|] eqn:E; [exfalso|reflexivity].
    apply match_at_sound in E as (Hs & A & _).
    apply two_lits_accepts in A. rewrite A in Hs. subst s' post.
    assert (Hu : (pre ++ (l1 ++ l2) ++ a) = pre).
    { apply (unique_occurrence (l1 ++ l2) pre (a ++ (l1 ++ l2) ++ rest) _ rest
               Hc). now rewrite <- !app_assoc. }
    apply (f_equal (@length ascii)) in Hu. rewrite !length_app in Hu.
    assert (Hl : length (l1 ++ l2) <> 0)
      by (destruct (l1 ++ l2); [congruence|discriminate]).
    rewrite length_app in Hl. lia.
  - intros a s' Hp Hs'.
    destruct (match_at false (Lit l1 >> Lit l2) (rev a ++ [])
                (s' ++ (l1 ++ l2) ++ post)) as [[m rest]|] eqn:E;
      [exfalso|reflexivity].
    apply match_at_sound in E as (Hs & A & _).
    apply two_lits_accepts in A. rewrite A in Hs.
    assert (Hu : a = pre).
    { apply (unique_occurrence (l1 ++ l2) pre post a rest Hc).
      rewrite Hp, <- app_assoc. now rewrite Hs. }
    subst a. apply (f_equal (@length ascii)) in Hp.
    rewrite length_app in Hp. destruct s' as [|q qs]; [congruence|].
    cbn [length] in Hp. lia.
Qed.

(** The third step of [update_imports]: the canonical import before the
    first import line, when the text has none. *)
Definition insert_import (c2 : text) : text :=
  if negb (contains LOGGER_IMPORT c2) then
    match re_search false import_re c2 with
    | Some import_match =>
        firstn (m_start import_match) c2 ++ LOGGER_IMPORT ++ [nl]
        ++ skipn (m_start import_match) c2
    | None => c2
    end
  else c2.

Lemma update_imports_steps (o : LogConverter) :
  update_imports o
  = (let? c2 := without_legacy_imports (content o) in
     Ok (set_content o (insert_import c2)))%res.
Proof.
  unfold update_imports, without_legacy_imports, insert_import, rbind.
  destruct (re_delete timber_import_re _) as [c1|e]; [|reflexivity].
  destruct (re_delete android_import_re c1) as [c2|e]; [|reflexivity].
  destruct (negb _); [destruct (re_search _ _ _)|]; reflexivity.
Qed.

Definition TIMBER_IMPORT_LINE : text := txt "import timber.log.Timber" ++ [nl].
Definition ANDROID_IMPORT_LINE : text := txt "import android.util.Log" ++ [nl].

(** X22.  A text with a single legacy import line, Timber's or
    Android's, and without the other one has that line cut out, newline
    included, before the canonical import is looked for: what is before
    and after the line is joined. *)
Theorem X22_legacy_import_removed (o : LogConverter) (pre post : text) :
  (content o = pre ++ TIMBER_IMPORT_LINE ++ post ->
   count_sub TIMBER_IMPORT_LINE (content o) = 1 ->
   contains (txt "import android.util.Log") (pre ++ post) = false ->
   update_imports o = Ok (set_content o (insert_import (pre ++ post)))) /\
  (content o = pre ++ ANDROID_IMPORT_LINE ++ post ->
   count_sub ANDROID_IMPORT_LINE (content o) = 1 ->
   contains (txt "import timber.log.Timber") (content o) = false ->
   update_imports o = Ok (set_content o (insert_import (pre ++ post)))).
Proof.
  split; intros Hc Hn Ha; rewrite update_imports_steps;
    unfold without_legacy_imports, timber_import_re, android_import_re, L;
    rewrite Hc in *.
  - unfold TIMBER_IMPORT_LINE in *.
    rewrite re_delete_once by (discriminate || exact Hn). cbn [rbind].
    now rewrite re_delete_without by exact Ha.
  - unfold ANDROID_IMPORT_LINE in *.
    rewrite re_delete_without by exact Ha. cbn [rbind].
    now rewrite re_delete_once by (discriminate || exact Hn).
Qed.

Lemma X22_legacy_import_removed_witness :
  let pre := txt "package a" ++ [nl] in
  let post := txt "import x.Y" ++ [nl] ++ txt "class A" in
  let o := set_content (new_converter (txt "/app/A.kt"))
             (pre ++ TIMBER_IMPORT_LINE ++ post) in
  update_imports o
  = Ok (set_content o
          (pre ++ LOGGER_IMPORT ++ [nl] ++ txt "import x.Y" ++ [nl]
           ++ txt "class A")).
Proof.
  intros pre post o.
  rewrite (proj1 (X22_legacy_import_removed o pre post)); reflexivity.
Defined.

(* ================================================================= *)
(** * Running the transformer twice *)

(** ** Texts without a marker *)



(** The three markers that [convert] looks for. *)
Definition MARKERS : list text := [txt "Timber"; txt "Log.d"; txt "Log.e"].

Definition free (s : text) : Prop :=
  forall m, In m MARKERS -> contains m s = false.
















(** ** Calls that the rewriter converts or deletes *)







(** What is put in the place of a converted call: a text without a
    marker and without a newline, from [l] to [)]. *)
Definition converted (rep : text) : Prop :=
  free rep /\ forallb is_dot rep = true /\
  exists r, rep = "l"%char :: r ++ [rparen].









(** ** Files in which every marker sits in a tidy place *)













(** ** The lines that [process_content] makes of a tidy file *)












(** ** The import fix-up on neat lines *)











(** ** The change log of a run *)







(** ** The second run *)



